(** * abi-to-sol: the Solidity interface generator

    A shallow embedding of [generateSolidity] and of the [SolidityGenerator]
    visitor, together with the JavaScript built-ins the generator relies on
    ([Array.prototype.join], [String.prototype.replace],
    [String.prototype.startsWith], [String.prototype.includes],
    [JSON.stringify], [JSON.parse]) and the signature function of
    @truffle/codec. The modules ./visitor, ./declarations and ./defaults,
    which the generator imports, are not among the sources; what is taken
    from them is marked where it is defined.

    JavaScript strings are modelled as [string], one [ascii] per code unit.
    A call that may throw returns an [outcome]. *)

From Stdlib Require Import String Ascii List Bool Arith Lia.
From Stdlib Require DecimalString DecimalNat.
Import ListNotations.
Open Scope string_scope.
#[local] Set Warnings "-register-all".

(** ** JavaScript strings *)

Module Js.

(** [s.startsWith(p)], returning what follows the prefix. *)
Fixpoint strip_prefix (p s : string) : option string :=
  match p with
  | EmptyString => Some s
  | String a p' =>
      match s with
      | EmptyString => None
      | String b s' => if Ascii.eqb a b then strip_prefix p' s' else None
      end
  end.

Definition startsWith (s p : string) : bool :=
  match strip_prefix p s with Some _ => true | None => false end.

(** The first occurrence of [pat] in [s]: the text before it and the text
    after it. *)
Fixpoint split_first (pat s : string) : option (string * string) :=
  match strip_prefix pat s with
  | Some rest => Some (EmptyString, rest)
  | None =>
      match s with
      | EmptyString => None
      | String c s' =>
          match split_first pat s' with
          | Some (pre, post) => Some (String c pre, post)
          | None => None
          end
      end
  end.

Definition includes (s pat : string) : bool :=
  match split_first pat s with Some _ => true | None => false end.

(** [GetSubstitution] for a string pattern: there are no capture groups, so
    only [$$], [$&], [$`] and [$'] are special in the replacement text. *)
Fixpoint substitution (pre matched post r : string) : string :=
  match r with
  | EmptyString => EmptyString
  | String "$" (String "$" r') => String "$" (substitution pre matched post r')
  | String "$" (String "&" r') => matched ++ substitution pre matched post r'
  | String "$" (String "`" r') => pre ++ substitution pre matched post r'
  | String "$" (String "'" r') => post ++ substitution pre matched post r'
  | String c r' => String c (substitution pre matched post r')
  end.

(** [s.replace(pat, r)] with a string pattern: the first occurrence only. *)
Definition replace (s pat r : string) : string :=
  match split_first pat s with
  | None => s
  | Some (pre, post) => pre ++ substitution pre pat post r ++ post
  end.

(** [xs.join(sep)] on an array of strings. *)
Fixpoint join (sep : string) (xs : list string) : string :=
  match xs with
  | [] => EmptyString
  | [x] => x
  | x :: rest => x ++ sep ++ join sep rest
  end.

(** An array of strings converted to a string, as happens to an array nested
    in the array being joined. *)
Definition array_toString (xs : list string) : string := join "," xs.

(** A number that counts, converted to a string. *)
Definition number_toString (n : nat) : string :=
  DecimalString.NilEmpty.string_of_uint (Nat.to_uint n).

(** The value of a property lookup converted to a string: a missing property
    reads as [undefined]. *)
Definition toString (v : option string) : string :=
  match v with
  | Some s => s
  | None => "undefined"
  end.

(** Truthiness of an optional string: [undefined] and the empty string are
    falsy. *)
Definition truthy (v : option string) : bool :=
  match v with
  | Some EmptyString | None => false
  | Some _ => true
  end.

Definition truthy_flag (v : option bool) : bool :=
  match v with
  | Some b => b
  | None => false
  end.

End Js.

(** The line feed, as a string. *)
Abbreviation newline := (String "010" EmptyString) (only parsing).

(** ** Results of calls that may throw *)

Inductive error := TypeError.

Inductive outcome (A : Type) :=
| Returned (a : A)
| Thrown (e : error).
Arguments Returned {A} a.
Arguments Thrown {A} e.

Definition bind {A B} (m : outcome A) (k : A -> outcome B) : outcome B :=
  match m with
  | Returned a => k a
  | Thrown e => Thrown e
  end.

Notation "x <- m ;; k" := (bind m (fun x => k))
  (at level 61, m at next level, right associativity).

(** [xs.map(f)] where [f] may throw: the first exception escapes. *)
Fixpoint mapM {A B} (f : A -> outcome B) (xs : list A) : outcome (list B) :=
  match xs with
  | [] => Returned []
  | x :: rest =>
      y <- f x ;;
      ys <- mapM f rest ;;
      Returned (y :: ys)
  end.

(** ** The ABI (Abi.Abi of @truffle/abi-utils) *)

(** [Abi.Parameter]; [indexed] is the extra field of [Abi.EventParameter]. *)
Inductive AbiParameter :=
  mkParameter (name : string) (type : string)
              (components : option (list AbiParameter))
              (indexed : option bool) (internalType : option string).

Definition p_name (p : AbiParameter) : string :=
  let 'mkParameter name _ _ _ _ := p in name.
Definition p_type (p : AbiParameter) : string :=
  let 'mkParameter _ type _ _ _ := p in type.
Definition p_components (p : AbiParameter) : option (list AbiParameter) :=
  let 'mkParameter _ _ components _ _ := p in components.
Definition p_indexed (p : AbiParameter) : option bool :=
  let 'mkParameter _ _ _ indexed _ := p in indexed.
Definition p_internalType (p : AbiParameter) : option string :=
  let 'mkParameter _ _ _ _ internalType := p in internalType.

Record FunctionEntry := mkFunctionEntry {
  f_name : string;
  f_inputs : list AbiParameter;
  f_outputs : option (list AbiParameter);
  f_stateMutability : option string
}.

Record ConstructorEntry := mkConstructorEntry {
  c_inputs : list AbiParameter;
  c_stateMutability : option string
}.

Record FallbackEntry := mkFallbackEntry {
  fb_stateMutability : option string
}.

Record ReceiveEntry := mkReceiveEntry {
  r_stateMutability : option string
}.

Record EventEntry := mkEventEntry {
  e_name : string;
  e_inputs : list AbiParameter;
  e_anonymous : option bool
}.

(** An entry, discriminated by its [type] field. *)
Inductive Entry :=
| Function (e : FunctionEntry)
| Constructor (e : ConstructorEntry)
| Fallback (e : FallbackEntry)
| Receive (e : ReceiveEntry)
| Event (e : EventEntry).

Definition Abi := list Entry.

(** [entry.stateMutability]; an event entry has no such field. *)
Definition stateMutability (entry : Entry) : option string :=
  match entry with
  | Function e => f_stateMutability e
  | Constructor e => c_stateMutability e
  | Fallback e => fb_stateMutability e
  | Receive e => r_stateMutability e
  | Event _ => None
  end.

(** Induction over parameter trees, components included. *)
Section ParameterInd.
Variable P : AbiParameter -> Prop.
Hypothesis leaf : forall n t i it, P (mkParameter n t None i it).
Hypothesis node : forall n t cs i it,
    Forall P cs -> P (mkParameter n t (Some cs) i it).

Fixpoint Parameter_tree_ind (p : AbiParameter) : P p :=
  match p with
  | mkParameter n t None i it => leaf n t i it
  | mkParameter n t (Some cs) i it =>
      node n t cs i it
        ((fix all (l : list AbiParameter) : Forall P l :=
            match l with
            | [] => Forall_nil P
            | q :: l' => Forall_cons q (Parameter_tree_ind q) (all l')
            end) cs)
  end.
End ParameterInd.

(** ** Structural signatures (Codec.AbiData.Utils of @truffle/codec) *)

Module Codec.

(** What the group of the pattern [tuple] followed by any characters
    captures: the rest of the line after the match. *)
Fixpoint rest_of_line (s : string) : string :=
  match s with
  | EmptyString => EmptyString
  | String c s' =>
      if (Ascii.eqb c "010" || Ascii.eqb c "013")%bool then EmptyString
      else String c (rest_of_line s')
  end.

(** Matching a type against that pattern: the captured tail, when the type
    mentions [tuple]. *)
Definition tupleMatch (type : string) : option string :=
  match Js.split_first "tuple" type with
  | Some (_, post) => Some (rest_of_line post)
  | None => None
  end.

(** Modelled from the spec: [abiTypeSignature] and [abiTupleSignature] belong
    to the package @truffle/codec, which is not among the sources. The
    signature is the parenthesised, comma-separated list of the component
    types, a component that is itself a tuple contributing the signature of
    its own components followed by its array suffixes; names and all other
    fields are left out. Asking for the components of a tuple that carries
    none throws. *)
Fixpoint abiTypeSignature (p : AbiParameter) : outcome string :=
  match tupleMatch (p_type p) with
  | None => Returned (p_type p)
  | Some tail =>
      match p_components p with
      | None => Thrown TypeError
      | Some cs =>
          sigs <- (fix each (l : list AbiParameter) : outcome (list string) :=
                     match l with
                     | [] => Returned []
                     | q :: l' =>
                         y <- abiTypeSignature q ;;
                         ys <- each l' ;;
                         Returned (y :: ys)
                     end) cs ;;
          Returned ("(" ++ Js.join "," sigs ++ ")" ++ tail)
      end
  end.

Definition abiTupleSignature (parameters : list AbiParameter) : outcome string :=
  components <- mapM abiTypeSignature parameters ;;
  Returned ("(" ++ Js.join "," components ++ ")").

End Codec.

(** ** Plain objects with string keys

    Properties are kept in insertion order, which is the order
    [Object.entries] lists them in. The keys are signatures: they open with
    a parenthesis, so none is an integer index and none names a property
    inherited from [Object.prototype]. *)

Module Obj.

Definition t (V : Type) := list (string * V).

Fixpoint get {V} (k : string) (o : t V) : option V :=
  match o with
  | [] => None
  | (k', v) :: o' => if String.eqb k k' then Some v else get k o'
  end.

(** [o[k] = v]: an existing property keeps its place, a new one goes last. *)
Fixpoint set {V} (k : string) (v : V) (o : t V) : t V :=
  match o with
  | [] => [(k, v)]
  | (k', v') :: o' =>
      if String.eqb k k' then (k', v) :: o' else (k', v') :: set k v o'
  end.

Definition keys {V} (o : t V) : list string := map fst o.

Definition values {V} (o : t V) : list V := map snd o.


End Obj.

(** ** The declaration table (./declarations) *)

Record Component := mkComponent {
  cp_name : string;
  cp_type : string;
  cp_signature : option string
}.

Record Declaration := mkDeclaration {
  d_identifier : option string;
  d_components : list Component
}.

Definition Declarations := Obj.t Declaration.

(** ** JSON: values, [JSON.stringify] and [JSON.parse]

    An ABI carries strings, booleans, arrays and objects only; numbers are
    left out of the values and the parser rejects them. *)

Module JSON.

Inductive value :=
| Null
| Bool (b : bool)
| Str (s : string)
| Arr (elements : list value)
| Object (members : list (string * value)).

Section ValueInd.
Variable P : value -> Prop.
Hypothesis null : P Null.
Hypothesis boolean : forall b, P (Bool b).
Hypothesis str : forall s, P (Str s).
Hypothesis arr : forall l, Forall P l -> P (Arr l).
Hypothesis object : forall ms, Forall (fun m => P (snd m)) ms -> P (Object ms).

Fixpoint value_tree_ind (v : value) : P v :=
  match v with
  | Null => null
  | Bool b => boolean b
  | Str s => str s
  | Arr l =>
      arr l ((fix all (l : list value) : Forall P l :=
                match l with
                | [] => Forall_nil P
                | x :: l' => Forall_cons x (value_tree_ind x) (all l')
                end) l)
  | Object ms =>
      object ms
        ((fix all (l : list (string * value))
            : Forall (fun m => P (snd m)) l :=
            match l with
            | [] => Forall_nil _
            | m :: l' =>
                Forall_cons (P := fun m => P (snd m)) m
                  (value_tree_ind (snd m)) (all l')
            end) ms)
  end.
End ValueInd.

Definition dquote : ascii := "034".
Definition backslash : ascii := "092".

(** A lowercase hexadecimal digit. *)
Definition hex_digit (n : nat) : ascii :=
  if Nat.ltb n 10 then ascii_of_nat (48 + n) else ascii_of_nat (87 + n).

(** [QuoteJSONString], one code unit at a time. *)
Definition quote_char (c : ascii) : string :=
  if Ascii.eqb c dquote then String backslash (String dquote EmptyString)
  else if Ascii.eqb c backslash then String backslash (String backslash EmptyString)
  else if Ascii.eqb c "008" then String backslash "b"
  else if Ascii.eqb c "009" then String backslash "t"
  else if Ascii.eqb c "010" then String backslash "n"
  else if Ascii.eqb c "012" then String backslash "f"
  else if Ascii.eqb c "013" then String backslash "r"
  else if Nat.ltb (nat_of_ascii c) 32
       then String backslash
              (String "u" (String "0" (String "0"
                 (String (hex_digit (nat_of_ascii c / 16))
                    (String (hex_digit (nat_of_ascii c mod 16)) EmptyString)))))
  else String c EmptyString.

Fixpoint quote_chars (s : string) : string :=
  match s with
  | EmptyString => EmptyString
  | String c s' => quote_char c ++ quote_chars s'
  end.

Definition quote (s : string) : string :=
  String dquote (quote_chars s ++ String dquote EmptyString).

(** [JSON.stringify(v)] without indentation. *)
Fixpoint stringify (v : value) : string :=
  match v with
  | Null => "null"
  | Bool true => "true"
  | Bool false => "false"
  | Str s => quote s
  | Arr l => "[" ++ Js.join "," (map stringify l) ++ "]"
  | Object ms =>
      "{" ++ Js.join ","
               (map (fun m => quote (fst m) ++ ":" ++ stringify (snd m)) ms)
          ++ "}"
  end.

(** *** Parsing *)

Definition is_ws (c : ascii) : bool :=
  (Ascii.eqb c " " || Ascii.eqb c "009" || Ascii.eqb c "010"
   || Ascii.eqb c "013")%bool.

Fixpoint skip_ws (s : string) : string :=
  match s with
  | String c s' => if is_ws c then skip_ws s' else s
  | EmptyString => EmptyString
  end.

Definition hex_value (c : ascii) : option nat :=
  let n := nat_of_ascii c in
  if (Nat.leb 48 n && Nat.leb n 57)%bool then Some (n - 48)
  else if (Nat.leb 97 n && Nat.leb n 102)%bool then Some (n - 87)
  else if (Nat.leb 65 n && Nat.leb n 70)%bool then Some (n - 55)
  else None.

(** The code unit written with four hexadecimal digits; one that does not fit
    an [ascii] is beyond this model of strings. *)
Definition unicode_escape (a b c d : ascii) : option ascii :=
  match hex_value a, hex_value b, hex_value c, hex_value d with
  | Some x, Some y, Some z, Some w =>
      let n := ((x * 16 + y) * 16 + z) * 16 + w in
      if Nat.ltb n 256 then Some (ascii_of_nat n) else None
  | _, _, _, _ => None
  end.

(** The character a single-letter escape stands for. *)
Definition simple_escape (e : ascii) : option ascii :=
  if Ascii.eqb e dquote then Some dquote
  else if Ascii.eqb e backslash then Some backslash
  else if Ascii.eqb e "/" then Some "/"%char
  else if Ascii.eqb e "b" then Some "008"%char
  else if Ascii.eqb e "f" then Some "012"%char
  else if Ascii.eqb e "n" then Some "010"%char
  else if Ascii.eqb e "r" then Some "013"%char
  else if Ascii.eqb e "t" then Some "009"%char
  else None.

Definition cons_char (c : ascii) (r : option (string * string))
  : option (string * string) :=
  match r with
  | Some (s, rest) => Some (String c s, rest)
  | None => None
  end.

(** The characters of a string literal, after its opening quote, up to and
    including its closing quote; the result is the string and the remaining
    input. *)
Fixpoint parse_chars (s : string) : option (string * string) :=
  match s with
  | EmptyString => None
  | String c s' =>
      if Ascii.eqb c dquote then Some (EmptyString, s')
      else if Ascii.eqb c backslash then
        match s' with
        | EmptyString => None
        | String e s'' =>
            if Ascii.eqb e "u" then
              match s'' with
              | String a (String b (String x (String y s3))) =>
                  match unicode_escape a b x y with
                  | Some ch => cons_char ch (parse_chars s3)
                  | None => None
                  end
              | _ => None
              end
            else
              match simple_escape e with
              | Some ch => cons_char ch (parse_chars s'')
              | None => None
              end
        end
      else if Nat.ltb (nat_of_ascii c) 32 then None
      else cons_char c (parse_chars s')
  end.

(** The input after the character [c], when it starts with it. *)
Definition expect (c : ascii) (s : string) : option string :=
  match s with
  | String c' rest => if Ascii.eqb c' c then Some rest else None
  | EmptyString => None
  end.

(** A value, then the elements of an array up to its closing bracket, then
    the members of an object up to its closing brace; [fuel] bounds the
    nesting and the number of elements, and the length of the input is always
    enough. *)
Fixpoint parse_value (fuel : nat) (s : string) : option (value * string) :=
  match fuel with
  | 0 => None
  | S fuel' =>
      match skip_ws s with
      | EmptyString => None
      | String c rest =>
          if Ascii.eqb c dquote then
            match parse_chars rest with
            | Some (str, rest') => Some (Str str, rest')
            | None => None
            end
          else if Ascii.eqb c "[" then
            match expect "]" (skip_ws rest) with
            | Some rest' => Some (Arr [], rest')
            | None =>
                match parse_elements fuel' rest with
                | Some (l, rest') => Some (Arr l, rest')
                | None => None
                end
            end
          else if Ascii.eqb c "{" then
            match expect "}" (skip_ws rest) with
            | Some rest' => Some (Object [], rest')
            | None =>
                match parse_members fuel' rest with
                | Some (ms, rest') => Some (Object ms, rest')
                | None => None
                end
            end
          else
            match Js.strip_prefix "null" (String c rest) with
            | Some rest' => Some (Null, rest')
            | None =>
                match Js.strip_prefix "true" (String c rest) with
                | Some rest' => Some (Bool true, rest')
                | None =>
                    match Js.strip_prefix "false" (String c rest) with
                    | Some rest' => Some (Bool false, rest')
                    | None => None
                    end
                end
            end
      end
  end

with parse_elements (fuel : nat) (s : string)
  : option (list value * string) :=
  match fuel with
  | 0 => None
  | S fuel' =>
      match parse_value fuel' s with
      | Some (v, rest) =>
          match skip_ws rest with
          | String c rest' =>
              if Ascii.eqb c "," then
                match parse_elements fuel' rest' with
                | Some (l, rest'') => Some (v :: l, rest'')
                | None => None
                end
              else if Ascii.eqb c "]" then Some ([v], rest')
              else None
          | EmptyString => None
          end
      | None => None
      end
  end

with parse_members (fuel : nat) (s : string)
  : option (list (string * value) * string) :=
  match fuel with
  | 0 => None
  | S fuel' =>
      match expect dquote (skip_ws s) with
      | Some rest =>
          match parse_chars rest with
          | Some (key, rest1) =>
              match expect ":" (skip_ws rest1) with
              | Some rest2 =>
                  match parse_value fuel' rest2 with
                  | Some (v, rest3) =>
                      match skip_ws rest3 with
                      | String c rest4 =>
                          if Ascii.eqb c "," then
                            match parse_members fuel' rest4 with
                            | Some (ms, rest5) => Some ((key, v) :: ms, rest5)
                            | None => None
                            end
                          else if Ascii.eqb c "}" then Some ([(key, v)], rest4)
                          else None
                      | EmptyString => None
                      end
                  | None => None
                  end
              | None => None
              end
          | None => None
          end
      | None => None
      end
  end.

(** [JSON.parse(text)]; [None] stands for its SyntaxError. *)
Definition parse (text : string) : option value :=
  match parse_value (S (String.length text)) text with
  | Some (v, rest) =>
      match skip_ws rest with
      | EmptyString => Some v
      | _ => None
      end
  | None => None
  end.

(** *** The text of the elements of an array and of the members of an object *)

Definition elements_text (l : list value) : string :=
  Js.join "," (map stringify l).

Definition member_text (m : string * value) : string :=
  quote (fst m) ++ ":" ++ stringify (snd m).

Definition members_text (ms : list (string * value)) : string :=
  Js.join "," (map member_text ms).

(** A value that is written is read back, whatever follows it. *)
Definition reads_back (v : value) : Prop :=
  forall fuel rest,
    String.length (stringify v) <= fuel ->
    parse_value fuel (stringify v ++ rest) = Some (v, rest).

End JSON.

(** ** The ABI as the JavaScript value it is

    The ABI reaches the generator already parsed. A field that is absent has
    no member; the members are listed in one fixed order, the alphabetical one
    the Solidity compiler writes them in. *)

Definition optional {A} (k : string) (f : A -> JSON.value) (v : option A)
  : list (string * JSON.value) :=
  match v with
  | Some a => [(k, f a)]
  | None => []
  end.

Fixpoint parameter_value (p : AbiParameter) : JSON.value :=
  match p with
  | mkParameter name type components indexed internalType =>
      JSON.Object
        (match components with
         | Some cs => [("components", JSON.Arr (map parameter_value cs))]
         | None => []
         end
         ++ optional "indexed" JSON.Bool indexed
         ++ optional "internalType" JSON.Str internalType
         ++ [("name", JSON.Str name); ("type", JSON.Str type)])
  end.

Definition parameters_value (ps : list AbiParameter) : JSON.value :=
  JSON.Arr (map parameter_value ps).

Definition entry_value (e : Entry) : JSON.value :=
  match e with
  | Function f =>
      JSON.Object
        ([("inputs", parameters_value (f_inputs f));
          ("name", JSON.Str (f_name f))]
         ++ optional "outputs" parameters_value (f_outputs f)
         ++ optional "stateMutability" JSON.Str (f_stateMutability f)
         ++ [("type", JSON.Str "function")])
  | Constructor c =>
      JSON.Object
        ([("inputs", parameters_value (c_inputs c))]
         ++ optional "stateMutability" JSON.Str (c_stateMutability c)
         ++ [("type", JSON.Str "constructor")])
  | Fallback f =>
      JSON.Object
        (optional "stateMutability" JSON.Str (fb_stateMutability f)
         ++ [("type", JSON.Str "fallback")])
  | Receive r =>
      JSON.Object
        (optional "stateMutability" JSON.Str (r_stateMutability r)
         ++ [("type", JSON.Str "receive")])
  | Event ev =>
      JSON.Object
        (optional "anonymous" JSON.Bool (e_anonymous ev)
         ++ [("inputs", parameters_value (e_inputs ev));
             ("name", JSON.Str (e_name ev));
             ("type", JSON.Str "event")])
  end.

Definition abi_value (abi : Abi) : JSON.value :=
  JSON.Arr (map entry_value abi).

(** ** The generator *)

(** The constants of ./defaults, which is not among the sources. *)
Record Defaults := mkDefaults {
  default_name : string;
  default_license : string;
  default_solidityVersion : string
}.

(** [GenerateSolidityOptions] without its [abi]. *)
Record Options := mkOptions {
  o_name : option string;
  o_solidityVersion : option string;
  o_license : option string;
  o_prettier : option bool
}.

Record Context := mkContext {
  parameterModifiers : AbiParameter -> list string
}.

Record SolidityGenerator := mkSolidityGenerator {
  name : string;
  license : string;
  solidityVersion : string;
  declarations : Declarations;
  identifiers : Obj.t string
}.

(** One turn of the constructor's loop over [Object.entries(declarations)];
    the state is [this.identifiers] and [index]. *)
Definition assign_identifier (st : Obj.t string * nat)
    (entry : string * Declaration) : Obj.t string * nat :=
  let '(ids, index) := st in
  let '(signature, d) := entry in
  if Js.truthy (d_identifier d)
  then (Obj.set signature (Js.toString (d_identifier d)) ids, index)
  else (Obj.set signature ("S_" ++ Js.number_toString index) ids, S index).

Definition assign_identifiers (ds : Declarations) : Obj.t string * nat :=
  fold_left assign_identifier ds ([], 0).

Definition or_default (v : option string) (d : string) : string :=
  match v with
  | Some s => s
  | None => d
  end.

(** [new SolidityGenerator({ ...options, declarations })]. *)
Definition new_SolidityGenerator (defaults : Defaults) (options : Options)
    (ds : Declarations) : SolidityGenerator :=
  {| name := or_default (o_name options) (default_name defaults);
     license := or_default (o_license options) (default_license defaults);
     solidityVersion :=
       or_default (o_solidityVersion options) (default_solidityVersion defaults);
     declarations := ds;
     identifiers := fst (assign_identifiers ds) |}.

Section Generator.

Variable this : SolidityGenerator.

Definition generateType (parameter : AbiParameter) : outcome string :=
  match p_components parameter with
  | None => Returned (p_type parameter)
  | Some components =>
      signature <- Codec.abiTupleSignature components ;;
      Returned (Js.replace (p_type parameter) "tuple"
                  (Js.toString (Obj.get signature (identifiers this))))
  end.

Definition generateStateMutability (entry : Entry) : string :=
  if (Js.truthy (stateMutability entry)
      && negb (String.eqb (Js.toString (stateMutability entry))
                 "nonpayable"))%bool
  then Js.toString (stateMutability entry)
  else EmptyString.

Definition visitParameter (parameter : AbiParameter)
    (context : option Context) : outcome string :=
  type <- generateType parameter ;;
  match context with
  | None => Thrown TypeError
  | Some c =>
      Returned (Js.join " "
                  (type :: parameterModifiers c parameter ++ [p_name parameter]))
  end.

(** Modelled from the spec: [dispatch] (./visitor) is not among the sources.
    It routes a node to the handler registered for its kind and threads the
    context; this is its case for a parameter node. *)
Definition dispatch_parameter (context : option Context)
    (node : AbiParameter) : outcome string :=
  visitParameter node context.

(** The context a function entry hands to its inputs and to its outputs. *)
Definition function_context : Context :=
  {| parameterModifiers := fun parameter =>
       if (Js.startsWith (p_type parameter) "tuple"
           || Js.includes (p_type parameter) "["
           || String.eqb (p_type parameter) "bytes"
           || String.eqb (p_type parameter) "string")%bool
       then ["memory"] else [] |}.

(** The context an event entry hands to its inputs. *)
Definition event_context : Context :=
  {| parameterModifiers := fun parameter =>
       if Js.truthy_flag (p_indexed parameter) then ["indexed"] else [] |}.

Definition visitFunctionEntry (entry : FunctionEntry) : outcome string :=
  inputs <- mapM (dispatch_parameter (Some function_context)) (f_inputs entry) ;;
  returns <-
    match f_outputs entry with
    | Some (o :: os) =>
        outputs <-
          mapM (dispatch_parameter (Some function_context)) (o :: os) ;;
        Returned (Js.join EmptyString
                    ["returns ("; Js.join ", " outputs; ")"])
    | _ => Returned EmptyString
    end ;;
  Returned (Js.join " "
              [ "function " ++ f_name entry ++ "(";
                Js.array_toString inputs;
                ") external";
                generateStateMutability (Function entry);
                returns;
                ";" ]).

Definition visitConstructorEntry (entry : ConstructorEntry) : outcome string :=
  Returned EmptyString.

Definition visitFallbackEntry (entry : FallbackEntry) : outcome string :=
  Returned ("fallback () external "
              ++ (match fb_stateMutability entry with
                  | Some m => if String.eqb m "payable" then "payable"
                              else EmptyString
                  | None => EmptyString
                  end)
              ++ ";").

Definition visitReceiveEntry (entry : ReceiveEntry) : outcome string :=
  Returned "receive () external payable;".

Definition visitEventEntry (entry : EventEntry) : outcome string :=
  inputs <- mapM (dispatch_parameter (Some event_context)) (e_inputs entry) ;;
  Returned (Js.join " "
              [ "event " ++ e_name entry ++ "(";
                Js.array_toString inputs;
                ")";
                (if Js.truthy_flag (e_anonymous entry) then "anonymous"
                 else EmptyString) ++ ";" ]).

(** Modelled from the spec: [dispatch] (./visitor) for an entry node routes on
    the entry's [type]. *)
Definition dispatch_entry (node : Entry) : outcome string :=
  match node with
  | Function e => visitFunctionEntry e
  | Constructor e => visitConstructorEntry e
  | Fallback e => visitFallbackEntry e
  | Receive e => visitReceiveEntry e
  | Event e => visitEventEntry e
  end.

Definition generateHeader : string :=
  Js.join newline
    [ "// SPDX-License-Identifier: " ++ license this;
      "// !! THIS FILE WAS AUTOGENERATED BY abi-to-sol. SEE BELOW FOR SOURCE. !!";
      "pragma solidity " ++ solidityVersion this ++ ";";
      "pragma experimental ABIEncoderV2;" ].

Definition generateComponents (declaration : Declaration) : string :=
  Js.join newline
    (map (fun component =>
            match cp_signature component with
            | None | Some EmptyString =>
                cp_type component ++ " " ++ cp_name component ++ ";"
            | Some signature =>
                Js.replace (cp_type component) "tuple"
                  (Js.toString (Obj.get signature (identifiers this)))
                ++ " " ++ cp_name component ++ ";"
            end)
       (d_components declaration)).

Definition generateDeclarations : string :=
  Js.join (newline ++ newline)
    (map (fun '(signature, declaration) =>
            "struct " ++ Js.toString (Obj.get signature (identifiers this))
            ++ " { " ++ generateComponents declaration ++ " }")
       (declarations this)).

Definition generateInterface (abi : Abi) : outcome string :=
  members <- mapM dispatch_entry abi ;;
  Returned (Js.join newline
              (("interface " ++ name this ++ " {") :: members ++ ["}"])).

Definition generateAutogeneratedNotice (abi : Abi) : string :=
  Js.join newline
    [ EmptyString;
      "// THIS FILE WAS AUTOGENERATED FROM THE FOLLOWING ABI JSON:";
      "/*";
      JSON.stringify (abi_value abi);
      "*/" ].

Definition visitAbi (abi : Abi) : outcome string :=
  interface <- generateInterface abi ;;
  Returned (Js.join (newline ++ newline)
              [ generateHeader;
                generateDeclarations;
                interface;
                generateAutogeneratedNotice abi ]).

End Generator.

(** Modelled from the spec: [dispatch] (./visitor) for the ABI itself calls
    the visitor's handler for it. *)
Definition dispatch_abi (visitor : SolidityGenerator) (node : Abi)
  : outcome string :=
  visitAbi visitor node.

(** ** [generateSolidity] *)

(** What a call of [generateSolidity] did: its result, and the texts it handed
    to [prettier.format], in order. *)
Record run := mkRun {
  result : outcome string;
  formatted : list string
}.

Section GenerateSolidity.

(** The constants of ./defaults. *)
Variable defaults : Defaults.

(** [collectDeclarations] of ./declarations. *)
Variable collectDeclarations : Abi -> Declarations.

(** [prettier.format] with the Solidity plug-in; it may throw. *)
Variable prettier_format : string -> outcome string.

Definition generateSolidity (abi : Abi) (options : Options) : run :=
  match
    dispatch_abi
      (new_SolidityGenerator defaults options (collectDeclarations abi)) abi
  with
  | Thrown e => {| result := Thrown e; formatted := [] |}
  | Returned generated =>
      if negb (Js.truthy_flag (o_prettier options))
      then {| result := Returned generated; formatted := [] |}
      else
        match prettier_format generated with
        | Returned text =>
            {| result := Returned text; formatted := [generated] |}
        | Thrown _ =>
            {| result := Returned generated; formatted := [generated] |}
        end
  end.

End GenerateSolidity.

(** ** The declaration collector *)

Module Collector.

Section Collect.

(** Modelled from the spec: the name inferred from the context of a
    structured parameter, if any; how it is inferred is left open. *)
Variable infer : AbiParameter -> option string.

(** The signature of a structured parameter, when it has one. *)
Definition signature_of (components : list AbiParameter) : option string :=
  match Codec.abiTupleSignature components with
  | Returned signature => Some signature
  | Thrown _ => None
  end.

(** Modelled from the spec: the field a component becomes; a structured
    component stores the signature of its own components. *)
Definition component_of (p : AbiParameter) : Component :=
  {| cp_name := p_name p;
     cp_type := p_type p;
     cp_signature :=
       match p_components p with
       | Some cs => signature_of cs
       | None => None
       end |}.

(** Modelled from the spec: a structured parameter enters the table unless
    its signature is there already, in which case the entry that is there
    stays as it is; a malformed one contributes nothing. *)
Definition declare (p : AbiParameter) (components : list AbiParameter)
    (table : Declarations) : Declarations :=
  match signature_of components with
  | Some signature =>
      match Obj.get signature table with
      | Some _ => table
      | None =>
          Obj.set signature
            {| d_identifier := infer p;
               d_components := map component_of components |}
            table
      end
  | None => table
  end.

(** Modelled from the spec: [collectDeclarations] (./declarations) is not
    among the sources. The walk is depth-first and left to right; a
    structured parameter is one that carries components, and it is entered
    after its components have been walked. *)
Fixpoint collect_parameter (p : AbiParameter) (table : Declarations)
  : Declarations :=
  match p with
  | mkParameter _ _ None _ _ => table
  | mkParameter _ _ (Some components) _ _ =>
      declare p components
        ((fix each (l : list AbiParameter) (t : Declarations) : Declarations :=
            match l with
            | [] => t
            | q :: l' => each l' (collect_parameter q t)
            end) components table)
  end.

Definition collect_parameters (ps : list AbiParameter) (table : Declarations)
  : Declarations :=
  fold_left (fun t p => collect_parameter p t) ps table.

(** Modelled from the spec: the parameter lists of an entry, inputs before
    outputs. *)
Definition entry_parameters (e : Entry) : list AbiParameter :=
  match e with
  | Function f =>
      (f_inputs f
       ++ match f_outputs f with Some os => os | None => [] end)%list
  | Constructor c => c_inputs c
  | Event ev => e_inputs ev
  | Fallback _ | Receive _ => []
  end.

(** Modelled from the spec: [collectDeclarations(abi)], the entries in their
    original order, starting from the empty table. *)
Definition collectDeclarations (abi : Abi) : Declarations :=
  fold_left (fun t e => collect_parameters (entry_parameters e) t) abi [].

End Collect.

End Collector.

(** ** Structural identity of parameters *)



(** The parameters the generator renders for an ABI: the inputs and outputs of
    its functions and the inputs of its events. *)
Definition rendered_parameters (abi : Abi) : list AbiParameter :=
  flat_map (fun e =>
              match e with
              | Function f =>
                  (f_inputs f
                   ++ match f_outputs f with Some os => os | None => [] end)%list
              | Event ev => e_inputs ev
              | _ => []
              end) abi.

(** ** The grammar of parameter types *)

Module TypeGrammar.

(** An array suffix: [[]] or [[N]]. *)
Inductive suffix :=
| Dynamic
| Fixed (n : nat).

Definition suffix_string (s : suffix) : string :=
  match s with
  | Dynamic => "[]"
  | Fixed n => "[" ++ Js.number_toString n ++ "]"
  end.

(** A base type, or the structured marker, followed by array suffixes. *)
Record type := mkType {
  base : string;
  suffixes : list suffix
}.

Definition type_string (ty : type) : string :=
  base ty ++ String.concat EmptyString (map suffix_string (suffixes ty)).

(** A base is a name without brackets, and the only one that begins like the
    structured marker is the marker itself. *)
Definition base_ok (b : string) : bool :=
  (negb (Js.includes b "[")
   && (negb (Js.startsWith b "tuple") || String.eqb b "tuple"))%bool.

Definition is_structured (ty : type) : bool := String.eqb (base ty) "tuple".

Definition is_array (ty : type) : bool :=
  match suffixes ty with
  | [] => false
  | _ :: _ => true
  end.

(** Whether a function input or output of this type is passed by reference:
    structured, any array, or one of the two dynamically sized primitive
    types. *)
Definition by_reference (ty : type) : bool :=
  (is_structured ty || is_array ty
   || String.eqb (base ty) "bytes"
   || String.eqb (base ty) "string")%bool.

End TypeGrammar.

(** ** Lines of text *)

(** [text.split] at every line feed. *)
Fixpoint lines (s : string) : list string :=
  match s with
  | EmptyString => [EmptyString]
  | String c s' =>
      if Ascii.eqb c "010" then EmptyString :: lines s'
      else
        match lines s' with
        | l :: ls => String c l :: ls
        | [] => [String c EmptyString]
        end
  end.

(** The line before the last one. *)
Definition penultimate (ls : list string) : option string :=
  match rev ls with
  | _ :: l :: _ => Some l
  | _ => None
  end.

(** The ABI JSON embedded in generated text: the footer is a comment whose
    single line of JSON sits between its opening and its closing line. *)
Definition embedded_json (output : string) : option string :=
  penultimate (lines output).

Definition no_line_feed (s : string) : bool := negb (Js.includes s newline).

(** The value that parsing the embedded JSON gives. *)
Definition embedded_abi (output : string) : option JSON.value :=
  match embedded_json output with
  | Some json => JSON.parse json
  | None => None
  end.


(** ** The interface body in the words of the specification *)

(** The non-empty rendered entries only, each on its own line between the
    opening and the closing line. *)
Definition interface_of_nonempty (g : SolidityGenerator)
    (members : list string) : string :=
  Js.join newline
    (("interface " ++ name g ++ " {")
       :: filter (fun m => negb (String.eqb m EmptyString)) members ++ ["}"]).

(** ** The identifiers the constructor assigns, entry by entry *)

(** An entry without an inferred identifier. *)
Definition unnamed (d : Declaration) : bool := negb (Js.truthy (d_identifier d)).

(** How many of the first [i] entries of the table are unnamed. *)
Definition unnamed_before (ds : Declarations) (i : nat) : nat :=
  List.length (filter (fun entry => unnamed (snd entry)) (firstn i ds)).

(** The identifiers that were inferred, in the order of the table. *)
Definition inferred (ds : Declarations) : list string :=
  map (fun entry => Js.toString (d_identifier (snd entry)))
    (filter (fun entry => negb (unnamed (snd entry))) ds).

Definition synthetic (index : nat) : string :=
  "S_" ++ Js.number_toString index.

(** The loop written out: what it appends to the identifiers it starts
    from. *)
Fixpoint assigned (ds : Declarations) (index : nat) : Obj.t string :=
  match ds with
  | [] => []
  | (signature, d) :: rest =>
      if unnamed d
      then (signature, synthetic index) :: assigned rest (S index)
      else (signature, Js.toString (d_identifier d)) :: assigned rest index
  end.


(** ** Tables during collection *)


(** ** Sample inputs *)

Module Sample.

Definition generator : SolidityGenerator :=
  new_SolidityGenerator
    (mkDefaults "MyInterface" "UNLICENSED" ">=0.5.0 <0.9.0")
    (mkOptions None None None None) [].

Definition elementary (name type : string) : AbiParameter :=
  mkParameter name type None None None.

Definition structured (name type : string) (components : list AbiParameter)
  : AbiParameter :=
  mkParameter name type (Some components) None None.

(** [function f(uint256 a) external view]. *)
Definition view_function : FunctionEntry :=
  mkFunctionEntry "f" [elementary "a" "uint256"] (Some []) (Some "view").

Definition a_constructor : ConstructorEntry :=
  mkConstructorEntry [elementary "owner" "address"] (Some "nonpayable").

(** A structured parameter the empty table has no declaration for. *)
Definition unresolved : AbiParameter :=
  structured "p" "tuple[]" [elementary "a" "uint256"].

Definition unresolved_function : FunctionEntry :=
  mkFunctionEntry "g" [unresolved] None None.

Definition defaults : Defaults :=
  mkDefaults "MyInterface" "UNLICENSED" ">=0.5.0 <0.9.0".

Definition with_prettier : Options :=
  mkOptions None None None (Some true).

Definition without_prettier : Options :=
  mkOptions None None None None.

(** The text generated for the ABI that is [view_function] alone. *)
Definition view_text : string :=
  Js.join (newline ++ newline)
    [ generateHeader generator;
      EmptyString;
      "interface MyInterface {" ++ newline
        ++ "function f( uint256 a ) external view  ;" ++ newline ++ "}";
      generateAutogeneratedNotice [Function view_function] ].

(** [uint256[3][]], and a parameter of that type flagged as indexed. *)
Definition array_type : TypeGrammar.type :=
  TypeGrammar.mkType "uint256" [TypeGrammar.Fixed 3; TypeGrammar.Dynamic].

Definition array_parameter : AbiParameter :=
  mkParameter "values" "uint256[3][]" None (Some true) None.

Definition array_function : FunctionEntry :=
  mkFunctionEntry "sum" [array_parameter] (Some [array_parameter]) None.

Definition array_event : EventEntry :=
  mkEventEntry "Seen" [array_parameter] None.

(** A table of three declarations, the second one with an inferred name. *)
Definition three_declarations : Declarations :=
  [ ("(uint256)", mkDeclaration None [mkComponent "a" "uint256" None]);
    ("(address)", mkDeclaration (Some "Owner") [mkComponent "o" "address" None]);
    ("(bool)", mkDeclaration None [mkComponent "b" "bool" None]) ].

(** A table whose first declaration has the inferred name [S_0]. *)
Definition clashing_declarations : Declarations :=
  [ ("(uint256)", mkDeclaration (Some "S_0") [mkComponent "a" "uint256" None]);
    ("(address)", mkDeclaration None [mkComponent "o" "address" None]) ].

(** Two functions taking the same pair of an address and an array of
    numbers, under different names and with different array suffixes. *)
Definition transfer_components : list AbiParameter :=
  [elementary "to" "address"; elementary "amounts" "uint256[]"].

Definition payout_components : list AbiParameter :=
  [elementary "beneficiary" "address"; elementary "shares" "uint256[]"].

Definition transfer_parameter : AbiParameter :=
  structured "order" "tuple" transfer_components.

Definition payout_parameter : AbiParameter :=
  structured "plan" "tuple[]" payout_components.

Definition two_functions : Abi :=
  [ Function (mkFunctionEntry "transfer" [transfer_parameter] None None);
    Function (mkFunctionEntry "payout" [payout_parameter] (Some [])
                (Some "payable")) ].

Definition no_inference (p : AbiParameter) : option string := None.

(** The text a run returned. *)
Definition generated_text (r : run) : string :=
  match result r with
  | Returned text => text
  | Thrown _ => EmptyString
  end.

(** A formatter that always throws. *)
Definition failing_format (text : string) : outcome string :=
  Thrown TypeError.

(** The run for [two_functions], the formatting pass off. *)
Definition two_functions_run : run :=
  generateSolidity defaults (Collector.collectDeclarations no_inference)
    failing_format two_functions without_prettier.

End Sample.

(** ** Which parameters render *)

(** A parameter renders unless it carries components whose signature cannot
    be computed. *)
Definition renders (p : AbiParameter) : bool :=
  match p_components p with
  | None => true
  | Some components =>
      match Codec.abiTupleSignature components with
      | Returned _ => true
      | Thrown _ => false
      end
  end.

(** How often the character [c] occurs in [s]. *)
Fixpoint occurrences (c : ascii) (s : string) : nat :=
  match s with
  | EmptyString => 0
  | String x s' => (if Ascii.eqb x c then 1 else 0) + occurrences c s'
  end.

(** ** The command line *)

Module Cli.

(** [readStdin]: the chunks that stdin delivered are joined the way
    [chunks.join()] joins them, with commas, and the text is parsed; [None]
    is the rejected promise. *)
Definition readStdin (chunks : list string) : option JSON.value :=
  JSON.parse (Js.join "," chunks).

(** What the argument parser hands to [main]: the values of the options that
    take one, and the flags. *)
Record Args := mkArgs {
  value_of : string -> option string;
  flag_of : string -> option bool
}.

(** [a || b] on optional strings. *)
Definition or_else (a b : option string) : option string :=
  if Js.truthy a then a else b.

(** The [options] object of [main], without its [validate]; it has no
    [prettier]. *)
Definition options (args : Args) : Options :=
  {| o_name := value_of args "<name>";
     o_solidityVersion :=
       or_else (value_of args "-V") (value_of args "--solidity-version");
     o_license := or_else (value_of args "-L") (value_of args "--license");
     o_prettier := None |}.




Section Main.

Variable defaults : Defaults.
Variable collectDeclarations : Abi -> Declarations.
Variable prettier_format : string -> outcome string.

(** The compiled schema validator, and the report on what it rejected. *)
Variable validate : Abi -> bool.
Variable betterAjvErrors : Abi -> string.


End Main.

End Cli.

(** ** The code pane of the web page *)

Module Web.

(** The state of the component. *)
Record state := mkState {
  html : string;
  showHtml : bool
}.

Section Code.

(** [hljs.highlight(contents, ...).value]; it may throw. *)
Variable highlight : string -> outcome string.

(** The effect of the component, run for [isGenerating] and for the
    [contents] of the result, if it has any. *)
Definition effect (isGenerating : bool) (contents : option string)
    (st : state) : state :=
  if isGenerating then {| html := html st; showHtml := false |}
  else
    match contents with
    | Some contents =>
        match highlight contents with
        | Returned value => {| html := value; showHtml := true |}
        | Thrown _ => {| html := contents; showHtml := true |}
        end
    | None => {| html := html st; showHtml := false |}
    end.

(** The markup the component puts in its pane, if it shows any. *)
Definition shown (st : state) : option string :=
  if showHtml st then Some (html st) else None.

End Code.

End Web.

(** ** More sample inputs *)

Module More.

(** An event with one indexed input, marked anonymous. *)
Definition anonymous_event : EventEntry :=
  mkEventEntry "Moved"
    [ mkParameter "from" "address" None (Some true) None;
      Sample.elementary "amount" "uint256" ]
    (Some true).

(** A function with two outputs. *)
Definition two_outputs : FunctionEntry :=
  mkFunctionEntry "pair" []
    (Some [Sample.elementary "a" "uint256"; Sample.elementary "b" "bool"])
    (Some "pure").

(** A nested tuple that carries no components. *)
Definition malformed : AbiParameter :=
  Sample.structured "p" "tuple" [Sample.elementary "inner" "tuple"].

Definition generator3 : SolidityGenerator :=
  new_SolidityGenerator Sample.defaults Sample.without_prettier
    Sample.three_declarations.

(** A parameter whose components have the third signature of
    [Sample.three_declarations]. *)
Definition flags_parameter : AbiParameter :=
  Sample.structured "flags" "tuple[2][]" [Sample.elementary "b" "bool"].

(** A table whose only declaration has an inferred name with two dollar
    signs. *)
Definition dollar_declarations : Declarations :=
  [ ("(bool)", mkDeclaration (Some "My$$Flags")
                 [mkComponent "b" "bool" None]) ].

(** No argument given on the command line. *)
Definition no_args : Cli.Args := Cli.mkArgs (fun _ => None) (fun _ => None).

(** [--validate] given on the command line. *)
Definition validating : Cli.Args :=
  Cli.mkArgs (fun _ => None)
    (fun k => if String.eqb k "--validate" then Some true else None).

End More.

(** ** Texts inside texts *)

(** [t] occurs in [s]. *)
Definition contains (s t : string) : Prop :=
  exists a b, s = a ++ t ++ b.

(** ** Commas *)

Abbreviation commas := (occurrences ",") (only parsing).

(** What the three parsers keep, for one amount of fuel. *)
Definition bounded (fuel : nat) : Prop :=
  (forall s v rest,
      JSON.parse_value fuel s = Some (v, rest) ->
      commas s <= commas (JSON.stringify v) + commas rest)
  /\ (forall s l rest,
        JSON.parse_elements fuel s = Some (l, rest) ->
        l <> [] /\ commas s <= commas (JSON.elements_text l) + commas rest)
  /\ (forall s ms rest,
        JSON.parse_members fuel s = Some (ms, rest) ->
        ms <> [] /\ commas s <= commas (JSON.members_text ms) + commas rest).


(** * Properties *)

(** ** Strings and joins *)

Lemma append_nil_r (s : string) : s ++ EmptyString = s.
Proof. induction s as [|c s IH]; simpl; [reflexivity | now rewrite IH]. Qed.

Lemma append_assoc (a b c : string) : (a ++ b) ++ c = a ++ (b ++ c).
Proof. induction a as [|x a IH]; simpl; [reflexivity | now rewrite IH]. Qed.

Lemma length_append (a b : string) :
  String.length (a ++ b) = String.length a + String.length b.
Proof. induction a as [|x a IH]; simpl; [reflexivity | now rewrite IH]. Qed.

Lemma join_cons (sep x : string) (y : string) (ys : list string) :
  Js.join sep (x :: y :: ys) = x ++ sep ++ Js.join sep (y :: ys).
Proof. reflexivity. Qed.

Lemma bind_ret {A B} (a : A) (k : A -> outcome B) :
  bind (Returned a) k = k a.
Proof. reflexivity. Qed.

Lemma bind_returned {A B} (m : outcome A) (k : A -> outcome B) (b : B) :
  bind m k = Returned b -> exists a, m = Returned a /\ k a = Returned b.
Proof. destruct m as [a|e]; simpl; [eauto | discriminate]. Qed.

Lemma mapM_length {A B} (f : A -> outcome B) (xs : list A) (ys : list B) :
  mapM f xs = Returned ys -> List.length ys = List.length xs.
Proof.
  revert ys; induction xs as [|x xs IH]; simpl; intros ys H.
  - now inversion H.
  - destruct (f x) as [y|]; [|discriminate]. simpl in H.
    destruct (mapM f xs) as [ys'|]; [|discriminate]. simpl in H.
    inversion H; subst. simpl. now rewrite (IH ys').
Qed.

Lemma mapM_nth {A B} (f : A -> outcome B) (xs : list A) (ys : list B) :
  mapM f xs = Returned ys ->
  forall i x, nth_error xs i = Some x ->
  exists y, nth_error ys i = Some y /\ f x = Returned y.
Proof.
  revert ys; induction xs as [|x0 xs IH]; simpl; intros ys H i x Hx.
  - destruct i; discriminate.
  - destruct (f x0) as [y0|] eqn:E0; [|discriminate]. simpl in H.
    destruct (mapM f xs) as [ys'|]; [|discriminate]. simpl in H.
    inversion H; subst. destruct i as [|i]; simpl in *.
    + inversion Hx; subst. eauto.
    + eapply IH; eauto.
Qed.

(** ** Lines *)

Lemma lines_nonempty (s : string) : lines s <> [].
Proof.
  induction s as [|c s IH]; simpl; [discriminate|].
  destruct (Ascii.eqb c "010"); [discriminate|].
  destruct (lines s); [contradiction | discriminate].
Qed.

Lemma lines_newline (a b : string) :
  lines (a ++ newline ++ b) = (lines a ++ lines b)%list.
Proof.
  induction a as [|c a IH]; simpl.
  - reflexivity.
  - destruct (Ascii.eqb c "010"); simpl.
    + now rewrite <- IH.
    + simpl in IH. rewrite IH.
      destruct (lines a) as [|l ls] eqn:E; [now apply lines_nonempty in E|].
      reflexivity.
Qed.

Lemma includes_char_cons (c d : ascii) (r : string) :
  Js.includes (String c r) (String d EmptyString)
  = (Ascii.eqb d c || Js.includes r (String d EmptyString))%bool.
Proof.
  unfold Js.includes. cbn [Js.split_first Js.strip_prefix].
  destruct (Ascii.eqb d c); [reflexivity|].
  cbn [orb]. now destruct (Js.split_first (String d EmptyString) r) as [[? ?]|].
Qed.

Lemma includes_char_app (a b : string) (d : ascii) :
  Js.includes (a ++ b) (String d EmptyString)
  = (Js.includes a (String d EmptyString)
     || Js.includes b (String d EmptyString))%bool.
Proof.
  induction a as [|c a IH]; [reflexivity|].
  simpl append. rewrite !includes_char_cons, IH. apply orb_assoc.
Qed.

Lemma lines_single (s : string) :
  no_line_feed s = true -> lines s = [s].
Proof.
  unfold no_line_feed.
  induction s as [|c s IH]; intros H; simpl; [reflexivity|].
  rewrite includes_char_cons in H. apply negb_true_iff in H.
  apply orb_false_iff in H as [Hc Hs].
  rewrite Ascii.eqb_sym, Hc, IH; [reflexivity|].
  now apply negb_true_iff.
Qed.

(** ** Rendering of entries *)

Lemma generateStateMutability_spec (entry : Entry) :
  generateStateMutability entry =
  match stateMutability entry with
  | Some m => if String.eqb m "nonpayable" then EmptyString else m
  | None => EmptyString
  end.
Proof.
  unfold generateStateMutability.
  destruct (stateMutability entry) as [[|c m]|]; try reflexivity.
  cbn [Js.truthy Js.toString andb].
  now destruct (String.eqb (String c m) "nonpayable").
Qed.

(** C3. A function entry that renders does so as
    [function <name>( <inputs> ) external <keyword> <returns> ;], where the
    keyword is the entry's mutability verbatim when that is present and is
    not [nonpayable] (so [view] renders [view]), and is empty, no keyword at
    all, when the mutability is absent or is [nonpayable]. *)
Theorem function_mutability_keyword
    (g : SolidityGenerator) (e : FunctionEntry) (text : string) :
  visitFunctionEntry g e = Returned text ->
  exists inputs returns keyword,
    mapM (dispatch_parameter g (Some function_context)) (f_inputs e)
    = Returned inputs
    /\ text = "function " ++ f_name e ++ "(" ++ " "
              ++ Js.array_toString inputs ++ " " ++ ") external" ++ " "
              ++ keyword ++ " " ++ returns ++ " " ++ ";"
    /\ keyword = generateStateMutability (Function e)
    /\ (forall m, f_stateMutability e = Some m -> m <> "nonpayable" ->
        keyword = m)
    /\ (f_stateMutability e = None \/ f_stateMutability e = Some "nonpayable" ->
        keyword = EmptyString)
    /\ (f_stateMutability e = Some "view" -> keyword = "view").
Proof.
  unfold visitFunctionEntry. intros H.
  apply bind_returned in H as (inputs & Hin & H).
  apply bind_returned in H as (returns & _ & H).
  injection H as <-.
  exists inputs, returns, (generateStateMutability (Function e)).
  split; [exact Hin|].
  split; [simpl Js.join; now rewrite !append_assoc|].
  split; [reflexivity|].
  rewrite generateStateMutability_spec. cbn [stateMutability].
  repeat split.
  - intros m -> Hm. apply String.eqb_neq in Hm. now rewrite Hm.
  - intros [-> | ->]; reflexivity.
  - intros ->; reflexivity.
Qed.

Lemma function_mutability_keyword_witness :
  visitFunctionEntry Sample.generator Sample.view_function
  = Returned "function f( uint256 a ) external view  ;"
  /\ exists inputs returns keyword,
      mapM (dispatch_parameter Sample.generator (Some function_context))
        (f_inputs Sample.view_function) = Returned inputs
      /\ "function f( uint256 a ) external view  ;"
         = "function " ++ f_name Sample.view_function ++ "(" ++ " "
           ++ Js.array_toString inputs ++ " " ++ ") external" ++ " "
           ++ keyword ++ " " ++ returns ++ " " ++ ";"
      /\ keyword = generateStateMutability (Function Sample.view_function)
      /\ (forall m, f_stateMutability Sample.view_function = Some m ->
          m <> "nonpayable" -> keyword = m)
      /\ (f_stateMutability Sample.view_function = None
          \/ f_stateMutability Sample.view_function = Some "nonpayable" ->
          keyword = EmptyString)
      /\ (f_stateMutability Sample.view_function = Some "view" ->
          keyword = "view").
Proof.
  split; [reflexivity|].
  apply (function_mutability_keyword Sample.generator Sample.view_function).
  reflexivity.
Defined.

(** ** The header *)

Lemma visitAbi_text (g : SolidityGenerator) (abi : Abi) :
  visitAbi g abi
  = (interface <- generateInterface g abi ;;
     Returned (generateHeader g ++ newline ++ newline
               ++ generateDeclarations g ++ newline ++ newline
               ++ interface ++ newline ++ newline
               ++ generateAutogeneratedNotice abi)).
Proof.
  unfold visitAbi.
  destruct (generateInterface g abi) as [interface|err]; [|reflexivity].
  simpl. now rewrite !append_assoc.
Qed.

(** C10. Whatever the generator holds, and so whatever declarations were
    collected, the header is the license marker, the autogenerated warning,
    the version pragma and the line [pragma experimental ABIEncoderV2;]; that
    line is a line of the header, and the header opens the text generated for
    any ABI. *)
Theorem header_has_experimental_pragma (g : SolidityGenerator) :
  generateHeader g
  = "// SPDX-License-Identifier: " ++ license g ++ newline
    ++ "// !! THIS FILE WAS AUTOGENERATED BY abi-to-sol. SEE BELOW FOR SOURCE. !!"
    ++ newline
    ++ "pragma solidity " ++ solidityVersion g ++ ";" ++ newline
    ++ "pragma experimental ABIEncoderV2;"
  /\ In "pragma experimental ABIEncoderV2;" (lines (generateHeader g))
  /\ forall abi,
      visitAbi g abi
      = (interface <- generateInterface g abi ;;
         Returned (generateHeader g ++ newline ++ newline
                   ++ generateDeclarations g ++ newline ++ newline
                   ++ interface ++ newline ++ newline
                   ++ generateAutogeneratedNotice abi)).
Proof.
  assert (E : generateHeader g
    = "// SPDX-License-Identifier: " ++ license g ++ newline
      ++ "// !! THIS FILE WAS AUTOGENERATED BY abi-to-sol. SEE BELOW FOR SOURCE. !!"
      ++ newline
      ++ "pragma solidity " ++ solidityVersion g ++ ";" ++ newline
      ++ "pragma experimental ABIEncoderV2;").
  { unfold generateHeader. simpl Js.join.
    now rewrite !append_assoc. }
  split; [exact E|]. split.
  - rewrite E.
    rewrite <- (append_assoc "// SPDX-License-Identifier: " (license g)).
    rewrite lines_newline, lines_newline.
    rewrite <- (append_assoc "pragma solidity " (solidityVersion g)).
    rewrite <- (append_assoc _ ";" (newline ++ _)).
    rewrite lines_newline.
    apply in_or_app; right. apply in_or_app; right. apply in_or_app; right.
    simpl. now left.
  - apply visitAbi_text.
Qed.

(** ** The interface body *)

Lemma join_lines (first : string) (members : list string) (last : string) :
  Js.join newline (first :: members ++ [last])
  = first ++ newline
    ++ String.concat EmptyString (map (fun m => m ++ newline) members)
    ++ last.
Proof.
  revert first; induction members as [|m ms IH]; intros first.
  - reflexivity.
  - cbn [app map String.concat]. rewrite join_cons, IH.
    destruct ms as [|m' ms]; cbn [map String.concat].
    + now rewrite !append_assoc.
    + now rewrite !append_assoc.
Qed.

(** C5, as the code has it. A constructor entry renders to the empty string.
    The interface body is the opening line, then every rendered entry in the
    order of the ABI, each followed by a line feed, then the closing line: the
    empty rendering of a constructor entry is kept, so it leaves an empty
    line. *)
Theorem interface_keeps_every_entry
    (g : SolidityGenerator) (abi : Abi) (members : list string) :
  mapM (dispatch_entry g) abi = Returned members ->
  generateInterface g abi
  = Returned ("interface " ++ name g ++ " {" ++ newline
              ++ String.concat EmptyString (map (fun m => m ++ newline) members)
              ++ "}")
  /\ List.length members = List.length abi
  /\ (forall c, dispatch_entry g (Constructor c) = Returned EmptyString)
  /\ (forall i c, nth_error abi i = Some (Constructor c) ->
      nth_error members i = Some EmptyString).
Proof.
  intros H. repeat split.
  - unfold generateInterface. rewrite H, bind_ret.
    pose proof (join_lines ("interface " ++ name g ++ " {") members "}") as J.
    rewrite J.
    now rewrite !append_assoc.
  - eapply mapM_length; eauto.
  - intros i c Hi.
    destruct (mapM_nth _ _ _ H i _ Hi) as (y & Hy & Hr).
    simpl in Hr. unfold visitConstructorEntry in Hr. congruence.
Qed.

Lemma interface_keeps_every_entry_witness :
  mapM (dispatch_entry Sample.generator) [Constructor Sample.a_constructor]
  = Returned [EmptyString]
  /\ generateInterface Sample.generator [Constructor Sample.a_constructor]
     = Returned ("interface " ++ name Sample.generator ++ " {" ++ newline
                 ++ String.concat EmptyString
                      (map (fun m => m ++ newline) [EmptyString])
                 ++ "}").
Proof.
  split; [reflexivity|].
  apply (interface_keeps_every_entry Sample.generator
           [Constructor Sample.a_constructor] [EmptyString]).
  reflexivity.
Defined.

(** C5, as the specification words it, fails: for an ABI that is one
    constructor entry the body has an empty line between the opening and the
    closing line, where the non-empty entries alone would give none. *)
Lemma constructor_leaves_empty_line :
  generateInterface Sample.generator [Constructor Sample.a_constructor]
  = Returned ("interface MyInterface {" ++ newline ++ newline ++ "}")
  /\ lines ("interface MyInterface {" ++ newline ++ newline ++ "}")
     = ["interface MyInterface {"; EmptyString; "}"]
  /\ interface_of_nonempty Sample.generator [EmptyString]
     = "interface MyInterface {" ++ newline ++ "}"
  /\ ~ (forall g abi members,
          mapM (dispatch_entry g) abi = Returned members ->
          generateInterface g abi = Returned (interface_of_nonempty g members)).
Proof.
  split; [reflexivity|]. split; [reflexivity|]. split; [reflexivity|].
  intros H.
  specialize (H Sample.generator [Constructor Sample.a_constructor]
                [EmptyString] eq_refl).
  discriminate H.
Qed.

(** ** Unresolved structured types *)

Lemma substitution_plain (pre matched post r : string) :
  Js.includes r "$" = false -> Js.substitution pre matched post r = r.
Proof.
  induction r as [|c r IH]; intros H; [reflexivity|].
  rewrite includes_char_cons in H. apply orb_false_iff in H as [Hc Hr].
  assert (E : Js.substitution pre matched post (String c r)
              = String c (Js.substitution pre matched post r)).
  { destruct c as [[] [] [] [] [] [] [] []]; try reflexivity.
    discriminate Hc. }
  rewrite E, IH; auto.
Qed.

(** C6, as the code has it. When the signature of a structured parameter has
    no entry in the table of identifiers, its type renders without any
    failure: the structured marker gives way to the text [undefined], the
    array suffixes staying in place. *)
Theorem generateType_unresolved
    (g : SolidityGenerator) (p : AbiParameter)
    (components : list AbiParameter) (signature : string) :
  p_components p = Some components ->
  Codec.abiTupleSignature components = Returned signature ->
  Obj.get signature (identifiers g) = None ->
  generateType g p = Returned (Js.replace (p_type p) "tuple" "undefined")
  /\ (forall pre post,
        Js.split_first "tuple" (p_type p) = Some (pre, post) ->
        generateType g p = Returned (pre ++ "undefined" ++ post))
  /\ (forall c,
        visitParameter g p (Some c)
        = Returned (Js.join " "
                      (Js.replace (p_type p) "tuple" "undefined"
                         :: parameterModifiers c p ++ [p_name p]))).
Proof.
  intros Hc Hs Hg.
  assert (E : generateType g p
              = Returned (Js.replace (p_type p) "tuple" "undefined")).
  { unfold generateType. rewrite Hc, Hs, bind_ret. now rewrite Hg. }
  split; [exact E|]. split.
  - intros pre post Hsplit. rewrite E. unfold Js.replace. rewrite Hsplit.
    now rewrite substitution_plain.
  - intros c. unfold visitParameter. rewrite E. reflexivity.
Qed.

Lemma generateType_unresolved_witness :
  generateType Sample.generator Sample.unresolved
  = Returned (Js.replace (p_type Sample.unresolved) "tuple" "undefined")
  /\ Js.replace (p_type Sample.unresolved) "tuple" "undefined" = "undefined[]".
Proof.
  split; [|reflexivity].
  apply (generateType_unresolved Sample.generator Sample.unresolved
           [Sample.elementary "a" "uint256"] "(uint256)");
    reflexivity.
Defined.

(** C6, as the specification words it, fails: with no declaration for the
    signature [(uint256)], the parameter, the function that takes it and the
    whole text are rendered, and they carry the type name [undefined[]]. *)
Lemma unresolved_type_is_rendered :
  Codec.abiTupleSignature [Sample.elementary "a" "uint256"]
  = Returned "(uint256)"
  /\ Obj.get "(uint256)" (identifiers Sample.generator) = None
  /\ generateType Sample.generator Sample.unresolved = Returned "undefined[]"
  /\ visitFunctionEntry Sample.generator Sample.unresolved_function
     = Returned "function g( undefined[] memory p ) external   ;"
  /\ (exists text,
       dispatch_abi Sample.generator [Function Sample.unresolved_function]
       = Returned text)
  /\ ~ (forall g p components signature,
          p_components p = Some components ->
          Codec.abiTupleSignature components = Returned signature ->
          Obj.get signature (identifiers g) = None ->
          exists e, generateType g p = Thrown e).
Proof.
  split; [reflexivity|]. split; [reflexivity|]. split; [reflexivity|].
  split; [reflexivity|]. split; [eexists; reflexivity|].
  intros H.
  destruct (H Sample.generator Sample.unresolved
              [Sample.elementary "a" "uint256"] "(uint256)"
              eq_refl eq_refl eq_refl) as (e & He).
  discriminate He.
Qed.

(** ** The formatting pass *)

(** C7. Whenever generation itself returns a text: with the formatting option
    off the run returns that text and hands nothing to the formatter; with
    the option on the run still returns a text, and it is the generated one,
    unchanged, if the formatter throws. *)
Theorem formatting_never_fails
    (defaults : Defaults) (collect : Abi -> Declarations)
    (format : string -> outcome string)
    (abi : Abi) (options : Options) (generated : string) :
  dispatch_abi (new_SolidityGenerator defaults options (collect abi)) abi
  = Returned generated ->
  (Js.truthy_flag (o_prettier options) = false ->
   generateSolidity defaults collect format abi options
   = {| result := Returned generated; formatted := [] |})
  /\ (forall e, format generated = Thrown e ->
      result (generateSolidity defaults collect format abi options)
      = Returned generated)
  /\ (exists text,
      result (generateSolidity defaults collect format abi options)
      = Returned text).
Proof.
  intros H. unfold generateSolidity. rewrite H.
  destruct (Js.truthy_flag (o_prettier options)); simpl.
  - split; [discriminate|]. split.
    + intros e ->. reflexivity.
    + destruct (format generated); eexists; reflexivity.
  - split; [reflexivity|]. split; [reflexivity|]. eexists; reflexivity.
Qed.

Lemma formatting_never_fails_witness :
  dispatch_abi
    (new_SolidityGenerator Sample.defaults Sample.with_prettier [])
    [Function Sample.view_function]
  = Returned Sample.view_text
  /\ Sample.failing_format Sample.view_text = Thrown TypeError
  /\ result (generateSolidity Sample.defaults (fun _ => [])
               Sample.failing_format [Function Sample.view_function]
               Sample.with_prettier)
     = Returned Sample.view_text.
Proof.
  split; [reflexivity|]. split; [reflexivity|].
  apply (proj1 (proj2
           (formatting_never_fails Sample.defaults (fun _ => [])
              Sample.failing_format [Function Sample.view_function]
              Sample.with_prettier Sample.view_text eq_refl))
           TypeError).
  reflexivity.
Defined.

(** ** Parameter modifiers *)

Lemma includes_app_char (a r : string) (c : ascii) :
  Js.includes (a ++ String c r) (String c EmptyString) = true.
Proof.
  induction a as [|x a IH]; simpl append; rewrite includes_char_cons.
  - now rewrite Ascii.eqb_refl.
  - rewrite IH. apply orb_true_r.
Qed.

Lemma suffix_string_bracket (s : TypeGrammar.suffix) :
  exists r, TypeGrammar.suffix_string s = String "[" r.
Proof. destruct s; simpl; eauto. Qed.

Lemma type_string_array (ty : TypeGrammar.type) :
  TypeGrammar.is_array ty = true ->
  Js.includes (TypeGrammar.type_string ty) "[" = true.
Proof.
  unfold TypeGrammar.is_array, TypeGrammar.type_string.
  destruct (TypeGrammar.suffixes ty) as [|s ss]; [discriminate|]. intros _.
  destruct (suffix_string_bracket s) as (r & Hr).
  cbn [map String.concat]. rewrite Hr.
  destruct (map TypeGrammar.suffix_string ss); simpl append;
    apply includes_app_char.
Qed.

Lemma type_string_plain (ty : TypeGrammar.type) :
  TypeGrammar.is_array ty = false ->
  TypeGrammar.type_string ty = TypeGrammar.base ty.
Proof.
  unfold TypeGrammar.is_array, TypeGrammar.type_string.
  destruct (TypeGrammar.suffixes ty); [|discriminate]. intros _.
  apply append_nil_r.
Qed.

(** What the context of a function entry answers, on a type of the grammar. *)
Lemma function_modifiers (p : AbiParameter) (ty : TypeGrammar.type) :
  TypeGrammar.base_ok (TypeGrammar.base ty) = true ->
  p_type p = TypeGrammar.type_string ty ->
  parameterModifiers function_context p
  = if TypeGrammar.by_reference ty then ["memory"] else [].
Proof.
  intros Hok Ht. cbn [parameterModifiers function_context]. rewrite Ht.
  unfold TypeGrammar.by_reference.
  destruct (TypeGrammar.is_array ty) eqn:Ha.
  - rewrite (type_string_array ty Ha).
    now rewrite !orb_true_r.
  - rewrite (type_string_plain ty Ha).
    unfold TypeGrammar.base_ok in Hok. apply andb_true_iff in Hok as [Hb Ht'].
    apply negb_true_iff in Hb. rewrite Hb.
    unfold TypeGrammar.is_structured.
    destruct (String.eqb_spec (TypeGrammar.base ty) "tuple") as [E|E].
    + rewrite E. reflexivity.
    + rewrite orb_false_r in Ht'. apply negb_true_iff in Ht'. now rewrite Ht'.
Qed.

Lemma mapM_In {A B} (f : A -> outcome B) (xs : list A) (ys : list B)
    (x : A) (y : B) :
  mapM f xs = Returned ys -> In x xs -> f x = Returned y -> In y ys.
Proof.
  intros H Hx Hy. apply In_nth_error in Hx as (i & Hi).
  destruct (mapM_nth f xs ys H i x Hi) as (y' & Hy' & Hf).
  assert (y' = y) by congruence. subst y'.
  eapply nth_error_In; eauto.
Qed.

(** C4. For a parameter whose type follows the grammar of parameter types:
    as an input or an output of a function it is rendered with [memory]
    exactly when the type is structured, an array, [bytes] or [string], and
    with nothing otherwise; as an input of an event it is rendered with
    [indexed] exactly when its indexed flag is set, and never with [memory].
    These are the renderings that the text of a function entry joins for its
    inputs and outputs, and the text of an event entry for its inputs. *)
Theorem parameter_modifiers_by_owner
    (g : SolidityGenerator) (p : AbiParameter) (ty : TypeGrammar.type)
    (type : string) :
  TypeGrammar.base_ok (TypeGrammar.base ty) = true ->
  p_type p = TypeGrammar.type_string ty ->
  generateType g p = Returned type ->
  let in_function :=
    if TypeGrammar.by_reference ty
    then type ++ " memory " ++ p_name p else type ++ " " ++ p_name p in
  let in_event :=
    if Js.truthy_flag (p_indexed p)
    then type ++ " indexed " ++ p_name p else type ++ " " ++ p_name p in
  parameterModifiers function_context p
  = (if TypeGrammar.by_reference ty then ["memory"] else [])
  /\ parameterModifiers event_context p
     = (if Js.truthy_flag (p_indexed p) then ["indexed"] else [])
  /\ ~ In "memory" (parameterModifiers event_context p)
  /\ (forall e inputs,
        In p (f_inputs e) ->
        mapM (dispatch_parameter g (Some function_context)) (f_inputs e)
        = Returned inputs ->
        In in_function inputs)
  /\ (forall e os outputs,
        f_outputs e = Some os -> In p os ->
        mapM (dispatch_parameter g (Some function_context)) os
        = Returned outputs ->
        In in_function outputs)
  /\ (forall e inputs,
        In p (e_inputs e) ->
        mapM (dispatch_parameter g (Some event_context)) (e_inputs e)
        = Returned inputs ->
        In in_event inputs).
Proof.
  intros Hok Ht Hg in_function in_event.
  pose proof (function_modifiers p ty Hok Ht) as Hf.
  assert (Hrf : dispatch_parameter g (Some function_context) p
                = Returned in_function).
  { unfold dispatch_parameter, visitParameter. rewrite Hg, bind_ret, Hf.
    subst in_function. destruct (TypeGrammar.by_reference ty); reflexivity. }
  assert (Hre : dispatch_parameter g (Some event_context) p
                = Returned in_event).
  { unfold dispatch_parameter, visitParameter. rewrite Hg, bind_ret.
    cbn [parameterModifiers event_context]. subst in_event.
    destruct (Js.truthy_flag (p_indexed p)); reflexivity. }
  split; [exact Hf|]. split; [reflexivity|]. split.
  - cbn [parameterModifiers event_context].
    destruct (Js.truthy_flag (p_indexed p)); simpl;
      [intros [H|[]]; discriminate H | intros []].
  - split; [|split].
    + intros e inputs Hin Hm. eapply mapM_In; eauto.
    + intros e os outputs _ Hin Hm. eapply mapM_In; eauto.
    + intros e inputs Hin Hm. eapply mapM_In; eauto.
Qed.

Lemma parameter_modifiers_by_owner_witness :
  parameterModifiers function_context Sample.array_parameter = ["memory"]
  /\ parameterModifiers event_context Sample.array_parameter = ["indexed"]
  /\ visitFunctionEntry Sample.generator Sample.array_function
     = Returned
         "function sum( uint256[3][] memory values ) external  returns (uint256[3][] memory values) ;"
  /\ visitEventEntry Sample.generator Sample.array_event
     = Returned "event Seen( uint256[3][] indexed values ) ;".
Proof.
  pose proof (parameter_modifiers_by_owner Sample.generator
                Sample.array_parameter Sample.array_type "uint256[3][]"
                eq_refl eq_refl eq_refl) as H.
  cbv zeta in H. destruct H as (Hf & He & _).
  split; [exact Hf|]. split; [exact He|]. split; reflexivity.
Defined.

(** ** Objects *)



Lemma set_absent {V} (k : string) (v : V) (o : Obj.t V) :
  ~ In k (Obj.keys o) -> Obj.set k v o = (o ++ [(k, v)])%list.
Proof.
  induction o as [|[k' v'] o IH]; simpl; intros H; [reflexivity|].
  destruct (String.eqb_spec k k') as [->|Hk]; [exfalso; auto|].
  rewrite IH; [reflexivity|]. intros Hin. apply H. now right.
Qed.

Lemma get_nth {V} (o : Obj.t V) (i : nat) (k : string) (v : V) :
  NoDup (Obj.keys o) -> nth_error o i = Some (k, v) -> Obj.get k o = Some v.
Proof.
  revert i; induction o as [|[k' v'] o IH]; intros i Hnd Hi.
  - destruct i; discriminate.
  - simpl in Hnd. inversion Hnd as [|? ? Hnotin Hnd']; subst.
    destruct i as [|i]; simpl in *.
    + inversion Hi; subst. now rewrite String.eqb_refl.
    + destruct (String.eqb_spec k k') as [->|Hk].
      * exfalso. apply Hnotin.
        apply nth_error_In in Hi. now apply (in_map fst) in Hi.
      * eapply IH; eauto.
Qed.


(** ** Numbers as text *)

Lemma number_toString_inj (a b : nat) :
  Js.number_toString a = Js.number_toString b -> a = b.
Proof.
  unfold Js.number_toString. intros H.
  apply DecimalNat.Unsigned.to_uint_inj.
  assert (E : DecimalString.NilEmpty.uint_of_string
                (DecimalString.NilEmpty.string_of_uint (Nat.to_uint a))
              = DecimalString.NilEmpty.uint_of_string
                (DecimalString.NilEmpty.string_of_uint (Nat.to_uint b)))
    by now rewrite H.
  rewrite !DecimalString.NilEmpty.usu in E. now inversion E.
Qed.

Lemma synthetic_inj (a b : nat) : synthetic a = synthetic b -> a = b.
Proof.
  unfold synthetic. intros H. apply number_toString_inj.
  simpl in H. now inversion H.
Qed.

(** ** The constructor's loop *)

Lemma assigned_keys (ds : Declarations) (index : nat) :
  Obj.keys (assigned ds index) = Obj.keys ds.
Proof.
  revert index; induction ds as [|[s d] ds IH]; intros index; [reflexivity|].
  simpl. destruct (unnamed d); simpl; now rewrite IH.
Qed.

Lemma fold_assign (ds : Declarations) (ids : Obj.t string) (index : nat) :
  NoDup (Obj.keys ids ++ Obj.keys ds) ->
  fst (fold_left assign_identifier ds (ids, index))
  = (ids ++ assigned ds index)%list.
Proof.
  revert ids index; induction ds as [|[s d] ds IH]; intros ids index Hnd.
  - simpl. now rewrite app_nil_r.
  - assert (Hs : ~ In s (Obj.keys ids)).
    { simpl in Hnd. apply NoDup_remove_2 in Hnd.
      intros H. apply Hnd. apply in_or_app. now left. }
    assert (Hnd' : forall v,
               NoDup (Obj.keys (ids ++ [(s, v)])%list ++ Obj.keys ds)).
    { intros v. unfold Obj.keys in *. rewrite map_app. simpl.
      rewrite <- app_assoc. exact Hnd. }
    cbn [fold_left assign_identifier assigned]. unfold unnamed.
    destruct (Js.truthy (d_identifier d)); cbn [negb];
      rewrite set_absent by exact Hs; rewrite IH by apply Hnd';
      now rewrite <- app_assoc.
Qed.

Lemma identifiers_assigned_eq (defaults : Defaults) (options : Options)
    (ds : Declarations) :
  NoDup (Obj.keys ds) ->
  identifiers (new_SolidityGenerator defaults options ds) = assigned ds 0.
Proof.
  intros Hnd. cbn [identifiers new_SolidityGenerator].
  unfold assign_identifiers. now rewrite fold_assign.
Qed.

Lemma unnamed_before_S (x : string * Declaration) (ds : Declarations)
    (i : nat) :
  unnamed_before (x :: ds) (S i)
  = (if unnamed (snd x) then 1 else 0) + unnamed_before ds i.
Proof.
  unfold unnamed_before. cbn [firstn filter].
  now destruct (unnamed (snd x)).
Qed.

Lemma assigned_nth (ds : Declarations) (index i : nat) (s : string)
    (d : Declaration) :
  nth_error ds i = Some (s, d) ->
  nth_error (assigned ds index) i
  = Some (s, if unnamed d then synthetic (index + unnamed_before ds i)
             else Js.toString (d_identifier d)).
Proof.
  revert index i; induction ds as [|[s' d'] ds IH]; intros index i Hi.
  - destruct i; discriminate.
  - destruct i as [|i]; simpl in Hi.
    + inversion Hi; subst. cbn [assigned].
      destruct (unnamed d); cbn [nth_error]; [|reflexivity].
      unfold unnamed_before. simpl. now rewrite Nat.add_0_r.
    + cbn [assigned]. rewrite unnamed_before_S. cbn [snd].
      destruct (unnamed d'); cbn [nth_error]; rewrite (IH _ _ Hi).
      * now rewrite Nat.add_succ_comm.
      * reflexivity.
Qed.

Lemma unnamed_before_lt (ds : Declarations) (i j : nat) (s : string)
    (d : Declaration) :
  nth_error ds i = Some (s, d) -> unnamed d = true -> i < j ->
  unnamed_before ds i < unnamed_before ds j.
Proof.
  revert i j; induction ds as [|x ds IH]; intros i j Hi Hd Hij.
  - destruct i; discriminate.
  - destruct j as [|j]; [lia|]. rewrite unnamed_before_S.
    destruct i as [|i].
    + simpl in Hi. inversion Hi; subst. cbn [snd]. rewrite Hd.
      unfold unnamed_before at 1. simpl. lia.
    + rewrite unnamed_before_S. simpl in Hi.
      assert (unnamed_before ds i < unnamed_before ds j)
        by (eapply IH; eauto; lia).
      lia.
Qed.

Lemma assigned_values (ds : Declarations) (index : nat) (v : string) :
  In v (Obj.values (assigned ds index)) ->
  In v (inferred ds) \/ exists k, index <= k /\ v = synthetic k.
Proof.
  revert index; induction ds as [|[s d] ds IH]; intros index; [contradiction|].
  cbn [assigned]. unfold inferred. cbn [filter snd].
  destruct (unnamed d); cbn [negb Obj.values map snd].
  - intros [<-|H]; [right; eauto|].
    apply IH in H as [H|(k & Hk & ->)]; [now left|].
    right. exists k. split; [lia | reflexivity].
  - intros [<-|H]; [left; now left|].
    apply IH in H as [H|H]; [left; now right | now right].
Qed.

Lemma assigned_NoDup (ds : Declarations) (index : nat) :
  NoDup (inferred ds) ->
  (forall id k, In id (inferred ds) -> id <> synthetic k) ->
  NoDup (Obj.values (assigned ds index)).
Proof.
  revert index; induction ds as [|[s d] ds IH]; intros index Hnd Hsyn.
  - constructor.
  - cbn [assigned]. unfold inferred in Hnd, Hsyn. cbn [filter snd] in Hnd, Hsyn.
    destruct (unnamed d); cbn [negb map snd] in Hnd, Hsyn;
      cbn [Obj.values map snd]; constructor.
    + intros H. apply assigned_values in H as [H|(k & Hk & H)].
      * now apply (Hsyn _ index H).
      * apply synthetic_inj in H. lia.
    + apply IH; assumption.
    + inversion Hnd as [|? ? Hnotin Hnd']; subst.
      intros H. apply assigned_values in H as [H|(k & _ & H)].
      * now apply Hnotin.
      * apply (Hsyn _ k (or_introl eq_refl)). exact H.
    + inversion Hnd; subst. apply IH; [assumption|].
      intros id k Hin. apply Hsyn. now right.
Qed.

(** C2, as the code has it. For a table of declarations (an object, so no
    two entries under one signature): every signature of the table has an
    identifier, in the table's order; an entry with an inferred identifier
    keeps it verbatim, and an entry without one gets [S_k], [k] counting the
    unnamed entries before it, so [S_0], [S_1], ... in insertion order; the
    identifiers of two unnamed entries differ; and all identifiers are
    pairwise distinct whenever the inferred ones are pairwise distinct and
    none of them reads [S_n]. *)
Theorem identifiers_assigned
    (defaults : Defaults) (options : Options) (ds : Declarations) :
  NoDup (Obj.keys ds) ->
  Obj.keys (identifiers (new_SolidityGenerator defaults options ds))
  = Obj.keys ds
  /\ (forall i signature d,
        nth_error ds i = Some (signature, d) ->
        Obj.get signature
          (identifiers (new_SolidityGenerator defaults options ds))
        = Some (if Js.truthy (d_identifier d)
                then Js.toString (d_identifier d)
                else "S_" ++ Js.number_toString (unnamed_before ds i)))
  /\ (forall i j si sj di dj,
        nth_error ds i = Some (si, di) ->
        nth_error ds j = Some (sj, dj) ->
        i <> j ->
        Js.truthy (d_identifier di) = false ->
        Js.truthy (d_identifier dj) = false ->
        Obj.get si (identifiers (new_SolidityGenerator defaults options ds))
        <> Obj.get sj (identifiers (new_SolidityGenerator defaults options ds)))
  /\ (NoDup (inferred ds) ->
      (forall id n,
         In id (inferred ds) -> id <> "S_" ++ Js.number_toString n) ->
      NoDup (Obj.values
               (identifiers (new_SolidityGenerator defaults options ds)))).
Proof.
  intros Hnd. rewrite (identifiers_assigned_eq defaults options ds Hnd).
  assert (Hk : NoDup (Obj.keys (assigned ds 0)))
    by now rewrite assigned_keys.
  assert (Hget : forall i signature d,
             nth_error ds i = Some (signature, d) ->
             Obj.get signature (assigned ds 0)
             = Some (if Js.truthy (d_identifier d)
                     then Js.toString (d_identifier d)
                     else synthetic (unnamed_before ds i))).
  { intros i s d Hi. apply (get_nth _ i); [exact Hk|].
    rewrite (assigned_nth ds 0 i s d Hi). unfold unnamed.
    now destruct (Js.truthy (d_identifier d)). }
  split; [apply assigned_keys|]. split; [exact Hget|]. split.
  - intros i j si sj di dj Hi Hj Hij Hdi Hdj.
    rewrite (Hget _ _ _ Hi), (Hget _ _ _ Hj), Hdi, Hdj.
    intros H. inversion H as [H']. apply number_toString_inj in H'.
    assert (Ui : unnamed di = true) by (unfold unnamed; now rewrite Hdi).
    assert (Uj : unnamed dj = true) by (unfold unnamed; now rewrite Hdj).
    destruct (Nat.lt_total i j) as [L|[L|L]]; [|contradiction|].
    + pose proof (unnamed_before_lt ds i j si di Hi Ui L). lia.
    + pose proof (unnamed_before_lt ds j i sj dj Hj Uj L). lia.
  - intros Hinf Hsyn. apply assigned_NoDup; assumption.
Qed.

Lemma identifiers_assigned_witness :
  NoDup (Obj.keys Sample.three_declarations)
  /\ Obj.get "(bool)"
       (identifiers (new_SolidityGenerator Sample.defaults
                       Sample.without_prettier Sample.three_declarations))
     = Some "S_1".
Proof.
  assert (Hnd : NoDup (Obj.keys Sample.three_declarations)).
  { repeat constructor; simpl; intuition discriminate. }
  split; [exact Hnd|].
  exact (proj1 (proj2 (identifiers_assigned Sample.defaults
                         Sample.without_prettier Sample.three_declarations
                         Hnd))
           2 "(bool)" _ eq_refl).
Defined.

(** C2, as the specification words it, fails: an inferred identifier that
    reads [S_0] is shared with the first unnamed entry. *)
Lemma inferred_identifier_clashes :
  NoDup (Obj.keys Sample.clashing_declarations)
  /\ Obj.get "(uint256)"
       (identifiers (new_SolidityGenerator Sample.defaults
                       Sample.without_prettier Sample.clashing_declarations))
     = Some "S_0"
  /\ Obj.get "(address)"
       (identifiers (new_SolidityGenerator Sample.defaults
                       Sample.without_prettier Sample.clashing_declarations))
     = Some "S_0"
  /\ ~ NoDup (Obj.values
                (identifiers (new_SolidityGenerator Sample.defaults
                                Sample.without_prettier
                                Sample.clashing_declarations))).
Proof.
  split; [repeat constructor; simpl; intuition discriminate|].
  split; [reflexivity|]. split; [reflexivity|].
  intros H. inversion H as [|? ? Hnotin _]; subst.
  apply Hnotin. now left.
Qed.

(** ** Signatures depend on the shape alone *)





(** ** The collected table *)

Section CollectorFacts.

Variable infer : AbiParameter -> option string.














End CollectorFacts.




(** ** JSON: parsing what was written *)

Module JSONFacts.
Import JSON.

Lemma quote_char_parse (c : ascii) (tail : string) :
  parse_chars (quote_char c ++ tail) = cons_char c (parse_chars tail).
Proof. destruct c as [[] [] [] [] [] [] [] []]; reflexivity. Qed.

Lemma quote_chars_parse (s rest : string) :
  parse_chars (quote_chars s ++ String dquote rest) = Some (s, rest).
Proof.
  induction s as [|c s IH]; [reflexivity|].
  cbn [quote_chars]. rewrite append_assoc, quote_char_parse, IH. reflexivity.
Qed.

Lemma quote_append (s rest : string) :
  quote s ++ rest = String dquote (quote_chars s ++ String dquote rest).
Proof. unfold quote. simpl. now rewrite append_assoc. Qed.

Lemma parse_value_string (fuel : nat) (tail : string) :
  parse_value (S fuel) (String dquote tail)
  = match parse_chars tail with
    | Some (str, rest) => Some (Str str, rest)
    | None => None
    end.
Proof. reflexivity. Qed.

Lemma parse_value_array (fuel : nat) (tail : string) :
  parse_value (S fuel) (String "[" tail)
  = match expect "]" (skip_ws tail) with
    | Some rest => Some (Arr [], rest)
    | None =>
        match parse_elements fuel tail with
        | Some (l, rest) => Some (Arr l, rest)
        | None => None
        end
    end.
Proof. reflexivity. Qed.

Lemma parse_value_object (fuel : nat) (tail : string) :
  parse_value (S fuel) (String "{" tail)
  = match expect "}" (skip_ws tail) with
    | Some rest => Some (Object [], rest)
    | None =>
        match parse_members fuel tail with
        | Some (ms, rest) => Some (Object ms, rest)
        | None => None
        end
    end.
Proof. reflexivity. Qed.

Lemma parse_elements_S (fuel : nat) (s : string) :
  parse_elements (S fuel) s
  = match parse_value fuel s with
    | Some (v, rest) =>
        match skip_ws rest with
        | String c rest' =>
            if Ascii.eqb c "," then
              match parse_elements fuel rest' with
              | Some (l, rest'') => Some (v :: l, rest'')
              | None => None
              end
            else if Ascii.eqb c "]" then Some ([v], rest')
            else None
        | EmptyString => None
        end
    | None => None
    end.
Proof. reflexivity. Qed.

Lemma parse_members_S (fuel : nat) (s : string) :
  parse_members (S fuel) s
  = match expect dquote (skip_ws s) with
    | Some rest =>
        match parse_chars rest with
        | Some (key, rest1) =>
            match expect ":" (skip_ws rest1) with
            | Some rest2 =>
                match parse_value fuel rest2 with
                | Some (v, rest3) =>
                    match skip_ws rest3 with
                    | String c rest4 =>
                        if Ascii.eqb c "," then
                          match parse_members fuel rest4 with
                          | Some (ms, rest5) => Some ((key, v) :: ms, rest5)
                          | None => None
                          end
                        else if Ascii.eqb c "}" then Some ([(key, v)], rest4)
                        else None
                    | EmptyString => None
                    end
                | None => None
                end
            | None => None
            end
        | None => None
        end
    | None => None
    end.
Proof. reflexivity. Qed.

Lemma skip_ws_char (c : ascii) (s : string) :
  is_ws c = false -> skip_ws (String c s) = String c s.
Proof. intros H. cbn [skip_ws]. now rewrite H. Qed.

Lemma expect_here (c : ascii) (s : string) :
  is_ws c = false -> expect c (skip_ws (String c s)) = Some s.
Proof.
  intros H. rewrite skip_ws_char by exact H. cbn [expect].
  now rewrite Ascii.eqb_refl.
Qed.

(** No value starts like the end of an array or of an object. *)
Lemma value_not_closing (v : value) (tail : string) :
  expect "]" (skip_ws (stringify v ++ tail)) = None
  /\ expect "}" (skip_ws (stringify v ++ tail)) = None.
Proof. destruct v as [|[]| | |]; split; reflexivity. Qed.

Lemma elements_read_back (l : list value) :
  Forall reads_back l -> l <> [] ->
  forall fuel rest,
    String.length (elements_text l) < fuel ->
    parse_elements fuel (elements_text l ++ String "]" rest) = Some (l, rest).
Proof.
  induction 1 as [|x xs Hx _ IH]; intros Hne fuel rest Hfuel; [congruence|].
  destruct fuel as [|fuel]; [lia|]. rewrite parse_elements_S.
  destruct xs as [|y ys].
  - unfold elements_text in *. cbn [map Js.join] in *.
    rewrite Hx by lia. reflexivity.
  - unfold elements_text in *. cbn [map] in *.
    rewrite join_cons in *. rewrite !length_append in Hfuel.
    rewrite append_assoc. rewrite Hx by lia.
    rewrite append_assoc. cbn [append].
    rewrite (skip_ws_char "," _ eq_refl).
    change (Ascii.eqb "," ",") with true. cbv iota.
    rewrite IH;
      [reflexivity | discriminate
      | change (String.length ",") with 1 in Hfuel; lia].
Qed.

Lemma members_read_back (ms : list (string * value)) :
  Forall (fun m => reads_back (snd m)) ms -> ms <> [] ->
  forall fuel rest,
    String.length (members_text ms) < fuel ->
    parse_members fuel (members_text ms ++ String "}" rest) = Some (ms, rest).
Proof.
  induction 1 as [|[k v] ms Hv _ IH]; intros Hne fuel rest Hfuel; [congruence|].
  destruct fuel as [|fuel]; [lia|]. rewrite parse_members_S.
  cbn [snd] in Hv.
  assert (Hhead : forall tail,
             (member_text (k, v) ++ tail)
             = String dquote
                 (quote_chars k
                  ++ String dquote (String ":" (stringify v ++ tail)))).
  { intros tail. unfold member_text. cbn [fst snd].
    rewrite append_assoc, quote_append. reflexivity. }
  assert (Hlen : String.length (stringify v)
                 <= String.length (member_text (k, v))).
  { unfold member_text. cbn [fst snd]. rewrite !length_append. lia. }
  destruct ms as [|m ms'].
  - unfold members_text in *. cbn [map Js.join] in *.
    rewrite Hhead, expect_here by reflexivity.
    rewrite quote_chars_parse, expect_here by reflexivity.
    rewrite Hv by lia. reflexivity.
  - unfold members_text in *. cbn [map] in *.
    rewrite join_cons in *. rewrite !length_append in Hfuel.
    rewrite append_assoc. rewrite Hhead, expect_here by reflexivity.
    rewrite quote_chars_parse, expect_here by reflexivity.
    rewrite Hv by lia.
    rewrite append_assoc. cbn [append].
    rewrite (skip_ws_char "," _ eq_refl).
    change (Ascii.eqb "," ",") with true. cbv iota.
    rewrite IH;
      [reflexivity | discriminate
      | change (String.length ",") with 1 in Hfuel; lia].
Qed.

Lemma value_reads_back (v : value) : reads_back v.
Proof.
  induction v as [| b | s | l IH | ms IH] using value_tree_ind;
    intros fuel rest Hfuel.
  - destruct fuel as [|fuel]; [simpl in Hfuel; lia | reflexivity].
  - destruct fuel as [|fuel]; [destruct b; simpl in Hfuel; lia|].
    destruct b; reflexivity.
  - destruct fuel as [|fuel]; [simpl in Hfuel; lia|].
    cbn [stringify]. rewrite quote_append, parse_value_string.
    now rewrite quote_chars_parse.
  - destruct fuel as [|fuel]; [simpl in Hfuel; lia|].
    cbn [stringify] in *. fold (elements_text l) in *.
    cbn [append] in *. rewrite append_assoc, parse_value_array.
    destruct l as [|x xs]; [reflexivity|].
    change ("]" ++ rest) with (String "]" rest).
    assert (E : elements_text (x :: xs) ++ String "]" rest
                = stringify x
                  ++ (match xs with
                      | [] => EmptyString
                      | _ :: _ => "," ++ elements_text xs
                      end ++ String "]" rest)).
    { unfold elements_text. cbn [map]. destruct xs; cbn [Js.join map].
      - reflexivity.
      - now rewrite !append_assoc. }
    rewrite E, (proj1 (value_not_closing x _)), <- E.
    rewrite (elements_read_back (x :: xs) IH); [reflexivity | discriminate |].
    cbn [String.length] in Hfuel. rewrite length_append in Hfuel.
    change (String.length "]") with 1 in Hfuel. lia.
  - destruct fuel as [|fuel]; [simpl in Hfuel; lia|].
    cbn [stringify] in *. fold member_text in *. fold (members_text ms) in *.
    cbn [append] in *. rewrite append_assoc, parse_value_object.
    destruct ms as [|[k v] ms']; [reflexivity|].
    change ("}" ++ rest) with (String "}" rest).
    assert (E : exists tail,
               members_text ((k, v) :: ms') ++ String "}" rest
               = String dquote tail).
    { unfold members_text, member_text. cbn [map fst snd].
      destruct ms'; cbn [Js.join map]; unfold quote; cbn [append]; eauto. }
    destruct E as (tail & E). 
    assert (Hexp : expect "}" (skip_ws (String dquote tail)) = None)
      by reflexivity.
    rewrite E, Hexp, <- E.
    rewrite (members_read_back ((k, v) :: ms') IH);
      [reflexivity | discriminate |].
    cbn [String.length] in Hfuel. rewrite length_append in Hfuel.
    change (String.length "}") with 1 in Hfuel. lia.
Qed.

(** [JSON.parse(JSON.stringify(v))] is [v]. *)
Lemma parse_stringify (v : value) : parse (stringify v) = Some v.
Proof.
  unfold parse.
  pose proof (value_reads_back v (S (String.length (stringify v)))
                EmptyString) as H.
  rewrite append_nil_r in H. rewrite H by lia. reflexivity.
Qed.

End JSONFacts.

(** ** The ABI and its value *)

Lemma map_inj_Forall {A B} (f : A -> B) (l : list A) :
  Forall (fun a => forall a', f a = f a' -> a = a') l ->
  forall l', map f l = map f l' -> l = l'.
Proof.
  induction 1 as [|a l Ha _ IH]; intros [|a' l'] H; try discriminate H.
  - reflexivity.
  - simpl in H. inversion H as [[H1 H2]]. f_equal; auto.
Qed.

Lemma parameter_value_inj (p : AbiParameter) :
  forall q, parameter_value p = parameter_value q -> p = q.
Proof.
  induction p as [n t i it | n t cs i it IH] using Parameter_tree_ind;
    intros [n' t' [ds|] i' it'] H;
    destruct i as [b|], i' as [b'|], it as [s|], it' as [s'|];
    cbn in H; try discriminate H; inversion H; subst; try reflexivity.
  all: f_equal; f_equal; eapply map_inj_Forall; eauto.
Qed.

Lemma parameter_values_inj (ps qs : list AbiParameter) :
  map parameter_value ps = map parameter_value qs -> ps = qs.
Proof.
  apply map_inj_Forall.
  apply Forall_forall. intros p _. apply parameter_value_inj.
Qed.

Lemma entry_value_inj (e e' : Entry) :
  entry_value e = entry_value e' -> e = e'.
Proof.
  destruct e as [[n i o m]|[i m]|[m]|[m]|[n i a]];
    destruct e' as [[n' i' o' m']|[i' m']|[m']|[m']|[n' i' a']];
    cbn [entry_value f_inputs f_name f_outputs f_stateMutability c_inputs
         c_stateMutability fb_stateMutability r_stateMutability e_name
         e_inputs e_anonymous];
    intros H;
    repeat match goal with
           | o : option _ |- _ => destruct o
           end;
    cbn [optional app] in H; try discriminate H;
    inversion H; subst;
    repeat match goal with
           | E : map parameter_value _ = map parameter_value _ |- _ =>
               apply parameter_values_inj in E; subst
           end;
    reflexivity.
Qed.

Lemma abi_value_inj (abi abi' : Abi) :
  abi_value abi = abi_value abi' -> abi = abi'.
Proof.
  unfold abi_value. intros H. inversion H as [H'].
  eapply map_inj_Forall; [|exact H'].
  apply Forall_forall. intros e _. apply entry_value_inj.
Qed.

(** ** The JSON text is one line *)

Lemma quote_char_one_line (c : ascii) :
  Js.includes (JSON.quote_char c) newline = false.
Proof. destruct c as [[] [] [] [] [] [] [] []]; reflexivity. Qed.

Lemma quote_one_line (s : string) :
  Js.includes (JSON.quote s) newline = false.
Proof.
  unfold JSON.quote.
  rewrite includes_char_cons, includes_char_app.
  assert (E : Js.includes (JSON.quote_chars s) (String "010" EmptyString)
              = false).
  { induction s as [|c s IH]; [reflexivity|].
    cbn [JSON.quote_chars]. rewrite includes_char_app, IH.
    now rewrite (quote_char_one_line c). }
  now rewrite E.
Qed.

Lemma join_one_line (sep : string) (l : list string) :
  Js.includes sep newline = false ->
  Forall (fun s => Js.includes s newline = false) l ->
  Js.includes (Js.join sep l) newline = false.
Proof.
  intros Hsep H. induction H as [|x l Hx Hl IH]; [reflexivity|].
  destruct l as [|y l]; [exact Hx|].
  rewrite join_cons, !includes_char_app, Hx, Hsep, IH. reflexivity.
Qed.

Lemma stringify_one_line (v : JSON.value) :
  Js.includes (JSON.stringify v) newline = false.
Proof.
  induction v as [| b | s | l IH | ms IH] using JSON.value_tree_ind.
  - reflexivity.
  - destruct b; reflexivity.
  - apply quote_one_line.
  - cbn [JSON.stringify]. rewrite !includes_char_app.
    rewrite (join_one_line "," (map JSON.stringify l)); [reflexivity..|].
    now apply Forall_map.
  - cbn [JSON.stringify]. rewrite !includes_char_app.
    rewrite (join_one_line ","); [reflexivity..|].
    apply Forall_map. eapply Forall_impl; [|exact IH].
    intros [k v] Hv. cbn [fst snd] in *.
    rewrite !includes_char_app, Hv.
    now rewrite (quote_one_line k).
Qed.

Lemma penultimate_snoc (ls : list string) (a b : string) :
  penultimate (ls ++ [a; b]) = Some a.
Proof.
  unfold penultimate.
  change [a; b] with ([a] ++ [b])%list.
  now rewrite app_assoc, !rev_unit.
Qed.

Lemma embedded_json_footer (before json : string) :
  no_line_feed json = true ->
  embedded_json (before ++ newline ++ json ++ newline ++ "*/") = Some json.
Proof.
  intros H. unfold embedded_json.
  rewrite lines_newline, lines_newline, (lines_single json H).
  apply penultimate_snoc.
Qed.

Lemma notice_text (abi : Abi) :
  generateAutogeneratedNotice abi
  = newline ++ "// THIS FILE WAS AUTOGENERATED FROM THE FOLLOWING ABI JSON:"
    ++ newline ++ "/*" ++ newline ++ JSON.stringify (abi_value abi)
    ++ newline ++ "*/".
Proof. reflexivity. Qed.

Lemma visitAbi_footer (g : SolidityGenerator) (abi : Abi) (text : string) :
  visitAbi g abi = Returned text ->
  exists before,
    text = before ++ newline ++ "/*" ++ newline
           ++ JSON.stringify (abi_value abi) ++ newline ++ "*/".
Proof.
  rewrite visitAbi_text. intros H.
  apply bind_returned in H as (interface & _ & H).
  exists (generateHeader g ++ newline ++ newline ++ generateDeclarations g
          ++ newline ++ newline ++ interface ++ newline ++ newline
          ++ newline
          ++ "// THIS FILE WAS AUTOGENERATED FROM THE FOLLOWING ABI JSON:").
  assert (E : text = generateHeader g ++ newline ++ newline
                     ++ generateDeclarations g ++ newline ++ newline
                     ++ interface ++ newline ++ newline
                     ++ generateAutogeneratedNotice abi) by congruence.
  rewrite E, notice_text, !append_assoc. reflexivity.
Qed.

(** C9. With the formatting pass off, the text generated for an ABI ends in a
    comment whose one line of text is the JSON serialization of the ABI;
    parsing the line embedded there gives back the value of the ABI, and that
    value is the value of no other ABI. *)
Theorem provenance_round_trip
    (defaults : Defaults) (collect : Abi -> Declarations)
    (format : string -> outcome string)
    (abi : Abi) (options : Options) (text : string) :
  Js.truthy_flag (o_prettier options) = false ->
  result (generateSolidity defaults collect format abi options)
  = Returned text ->
  (exists before,
     text = before ++ newline ++ "/*" ++ newline
            ++ JSON.stringify (abi_value abi) ++ newline ++ "*/")
  /\ embedded_json text = Some (JSON.stringify (abi_value abi))
  /\ embedded_abi text = Some (abi_value abi)
  /\ (forall abi', embedded_abi text = Some (abi_value abi') -> abi' = abi).
Proof.
  intros Hoff Hrun.
  assert (Hv : visitAbi
                 (new_SolidityGenerator defaults options (collect abi)) abi
               = Returned text).
  { unfold generateSolidity, dispatch_abi in Hrun. rewrite Hoff in Hrun.
    destruct (visitAbi _ abi); simpl in Hrun; congruence. }
  destruct (visitAbi_footer _ _ _ Hv) as (before & Htext).
  assert (Hjson : embedded_json text = Some (JSON.stringify (abi_value abi))).
  { rewrite Htext.
    rewrite <- (append_assoc before newline), <- (append_assoc _ "/*").
    apply embedded_json_footer. unfold no_line_feed.
    now rewrite stringify_one_line. }
  assert (Habi : embedded_abi text = Some (abi_value abi)).
  { unfold embedded_abi. rewrite Hjson. apply JSONFacts.parse_stringify. }
  split; [exists before; exact Htext|].
  split; [exact Hjson|]. split; [exact Habi|].
  intros abi' H. rewrite Habi in H.
  apply abi_value_inj. congruence.
Qed.

Lemma provenance_round_trip_witness :
  result Sample.two_functions_run
  = Returned (Sample.generated_text Sample.two_functions_run)
  /\ embedded_abi (Sample.generated_text Sample.two_functions_run)
     = Some (abi_value Sample.two_functions).
Proof.
  assert (H : result Sample.two_functions_run
              = Returned (Sample.generated_text Sample.two_functions_run))
    by (vm_compute; reflexivity).
  split; [exact H|].
  exact (proj1 (proj2 (proj2
           (provenance_round_trip Sample.defaults
              (Collector.collectDeclarations Sample.no_inference)
              Sample.failing_format Sample.two_functions
              Sample.without_prettier
              (Sample.generated_text Sample.two_functions_run)
              eq_refl H)))).
Defined.

(** * Further properties of the generator *)

(** ** When rendering throws *)

Lemma renders_generateType (g : SolidityGenerator) (p : AbiParameter) :
  (exists type, generateType g p = Returned type) <-> renders p = true.
Proof.
  unfold generateType, renders.
  destruct (p_components p) as [cs|]; [|split; eauto].
  destruct (Codec.abiTupleSignature cs) as [s|e]; simpl.
  - split; eauto.
  - split; [intros (t & H); discriminate H | discriminate].
Qed.

Lemma mapM_returns {A B} (f : A -> outcome B) (xs : list A) :
  (exists ys, mapM f xs = Returned ys)
  <-> Forall (fun x => exists y, f x = Returned y) xs.
Proof.
  induction xs as [|x xs IH]; simpl.
  - split; [constructor | eauto].
  - split.
    + intros (ys & H). apply bind_returned in H as (y & Hy & H).
      apply bind_returned in H as (ys' & Hys & _).
      constructor; [eauto | apply IH; eauto].
    + intros H. inversion H as [|? ? (y & Hy) Hxs]; subst.
      apply IH in Hxs as (ys & Hys). rewrite Hy, Hys. simpl. eauto.
Qed.

(** X1. Rendering a parameter throws in exactly two cases: no context was
    handed down, or the parameter carries components whose signature cannot
    be computed. In every other case the text is the type, the modifiers of
    the context and the name, joined by spaces. *)
Theorem visitParameter_throws
    (g : SolidityGenerator) (p : AbiParameter) (context : option Context) :
  ((exists e, visitParameter g p context = Thrown e)
   <-> context = None \/ renders p = false)
  /\ (forall c type,
        context = Some c -> generateType g p = Returned type ->
        visitParameter g p context
        = Returned (Js.join " " (type :: parameterModifiers c p ++ [p_name p]))).
Proof.
  split.
  - unfold visitParameter.
    destruct (generateType g p) as [type|e] eqn:E.
    + assert (R : renders p = true) by (apply (renders_generateType g); eauto).
      rewrite bind_ret. destruct context as [c|].
      * split; [intros (e & H); discriminate H|].
        intros [H|H]; [discriminate H | congruence].
      * split; eauto.
    + assert (R : renders p = false).
      { destruct (renders p) eqn:R; [|reflexivity].
        apply (renders_generateType g) in R as (t & Ht). congruence. }
      simpl. split; eauto.
  - intros c type -> H. unfold visitParameter. now rewrite H.
Qed.

Lemma dispatch_parameter_returns (g : SolidityGenerator) (c : Context)
    (p : AbiParameter) :
  (exists text, dispatch_parameter g (Some c) p = Returned text)
  <-> renders p = true.
Proof.
  unfold dispatch_parameter, visitParameter.
  rewrite <- (renders_generateType g).
  destruct (generateType g p) as [type|e]; simpl.
  - split; eauto.
  - split; intros (t & H); discriminate H.
Qed.

Lemma parameters_return (g : SolidityGenerator) (c : Context)
    (ps : list AbiParameter) :
  (exists texts, mapM (dispatch_parameter g (Some c)) ps = Returned texts)
  <-> forallb renders ps = true.
Proof.
  rewrite mapM_returns, forallb_forall, Forall_forall.
  split; intros H p Hp.
  - apply (dispatch_parameter_returns g c). auto.
  - apply (dispatch_parameter_returns g c). auto.
Qed.

Lemma entry_returns (g : SolidityGenerator) (e : Entry) :
  (exists text, dispatch_entry g e = Returned text)
  <-> forallb renders (rendered_parameters [e]) = true.
Proof.
  unfold rendered_parameters. cbn [flat_map]. rewrite app_nil_r.
  destruct e as [f|c|f|r|ev]; cbn [dispatch_entry].
  - unfold visitFunctionEntry. rewrite forallb_app.
    rewrite andb_true_iff, <- !(parameters_return g function_context).
    destruct (mapM _ (f_inputs f)) as [inputs|e1]; simpl.
    + destruct (f_outputs f) as [[|o os]|]; simpl.
      * split; [intros _; split; eauto | eauto].
      * destruct (dispatch_parameter g (Some function_context) o) as [t|e2];
          simpl.
        -- destruct (mapM _ os) as [outs|e3]; simpl.
           ++ split; [intros _; split; eauto | eauto].
           ++ split; [intros (t' & H); discriminate H|].
              intros (_ & (t' & H)); discriminate H.
        -- split; [intros (t' & H); discriminate H|].
           intros (_ & (t' & H)); discriminate H.
      * split; [intros _; split; eauto | eauto].
    + split; [intros (t & H); discriminate H|].
      intros ((t & H) & _); discriminate H.
  - unfold visitConstructorEntry. simpl. split; eauto.
  - unfold visitFallbackEntry. simpl. split; eauto.
  - unfold visitReceiveEntry. simpl. split; eauto.
  - unfold visitEventEntry.
    rewrite <- (parameters_return g event_context).
    destruct (mapM _ (e_inputs ev)) as [inputs|e1]; simpl.
    + split; eauto.
    + split; intros (t & H); discriminate H.
Qed.

Lemma rendered_parameters_cons (e : Entry) (abi : Abi) :
  rendered_parameters (e :: abi)
  = (rendered_parameters [e] ++ rendered_parameters abi)%list.
Proof.
  unfold rendered_parameters. cbn [flat_map]. now rewrite app_nil_r.
Qed.

(** X2. Generating the text for an ABI succeeds exactly when every parameter
    that is rendered (the inputs and outputs of functions, the inputs of
    events) renders: it carries no components, or components with a
    signature. Nothing else can make it throw: neither the table of the
    generator nor its options, nor what a constructor entry holds. *)
Theorem generation_succeeds_iff (g : SolidityGenerator) (abi : Abi) :
  (exists text, dispatch_abi g abi = Returned text)
  <-> forallb renders (rendered_parameters abi) = true.
Proof.
  unfold dispatch_abi. rewrite visitAbi_text.
  assert (H : (exists members, mapM (dispatch_entry g) abi = Returned members)
              <-> forallb renders (rendered_parameters abi) = true).
  { rewrite mapM_returns. induction abi as [|e abi IH].
    - split; [reflexivity | constructor].
    - rewrite rendered_parameters_cons, forallb_app, andb_true_iff.
      rewrite <- IH, <- (entry_returns g e). split.
      + intros H. inversion H; subst. split; assumption.
      + intros [H1 H2]. constructor; assumption. }
  rewrite <- H. unfold generateInterface.
  destruct (mapM (dispatch_entry g) abi) as [members|e]; simpl.
  - split; eauto.
  - split; intros (t & Ht); discriminate Ht.
Qed.

(** ** What the structured marker is replaced by *)

Lemma number_toString_plain (n : nat) :
  Js.includes (Js.number_toString n) "$" = false.
Proof.
  unfold Js.number_toString.
  induction (Nat.to_uint n) as [|d IH|d IH|d IH|d IH|d IH|d IH|d IH|d IH|d IH|d IH];
    [reflexivity|..];
    cbn [DecimalString.NilEmpty.string_of_uint];
    rewrite includes_char_cons, IH; reflexivity.
Qed.

Lemma synthetic_plain (n : nat) : Js.includes (synthetic n) "$" = false.
Proof.
  unfold synthetic. rewrite includes_char_app, number_toString_plain.
  reflexivity.
Qed.

Lemma replace_marker (suffix r : string) :
  Js.replace ("tuple" ++ suffix) "tuple" r
  = Js.substitution EmptyString "tuple" suffix r ++ suffix.
Proof. reflexivity. Qed.

Lemma replace_no_marker (s r : string) :
  Js.includes s "tuple" = false -> Js.replace s "tuple" r = s.
Proof.
  unfold Js.includes, Js.replace.
  now destruct (Js.split_first "tuple" s) as [[pre post]|].
Qed.

Lemma substitution_app_plain (pre matched post a r : string) :
  Js.includes a "$" = false ->
  Js.substitution pre matched post (a ++ r)
  = a ++ Js.substitution pre matched post r.
Proof.
  induction a as [|c a IH]; intros H; [reflexivity|].
  rewrite includes_char_cons in H. apply orb_false_iff in H as [Hc Ha].
  cbn [append].
  assert (E : forall t, Js.substitution pre matched post (String c t)
                        = String c (Js.substitution pre matched post t)).
  { intros t. destruct c as [[] [] [] [] [] [] [] []]; try reflexivity.
    discriminate Hc. }
  rewrite E, IH; auto.
Qed.

(** X3. A structured parameter of type [tuple] followed by array suffixes,
    whose signature has an identifier without a dollar sign, renders as that
    identifier followed by the same suffixes. *)
Theorem generateType_keeps_suffixes
    (g : SolidityGenerator) (p : AbiParameter)
    (components : list AbiParameter) (signature identifier suffix : string) :
  p_components p = Some components ->
  Codec.abiTupleSignature components = Returned signature ->
  Obj.get signature (identifiers g) = Some identifier ->
  Js.includes identifier "$" = false ->
  p_type p = "tuple" ++ suffix ->
  generateType g p = Returned (identifier ++ suffix).
Proof.
  intros Hc Hs Hg Hplain Ht. unfold generateType.
  rewrite Hc, Hs, bind_ret, Hg, Ht, replace_marker.
  cbn [Js.toString]. now rewrite substitution_plain.
Qed.

Lemma generateType_keeps_suffixes_witness :
  generateType More.generator3 More.flags_parameter = Returned "S_1[2][]".
Proof.
  apply (generateType_keeps_suffixes More.generator3 More.flags_parameter
           [Sample.elementary "b" "bool"] "(bool)" "S_1" "[2][]");
    reflexivity.
Defined.

(** X4. A parameter that carries components but whose type does not mention
    [tuple] keeps its type as it is: the identifier of its signature, present
    or missing, is not used. *)
Theorem generateType_without_marker
    (g : SolidityGenerator) (p : AbiParameter)
    (components : list AbiParameter) (signature : string) :
  p_components p = Some components ->
  Codec.abiTupleSignature components = Returned signature ->
  Js.includes (p_type p) "tuple" = false ->
  generateType g p = Returned (p_type p).
Proof.
  intros Hc Hs Ht. unfold generateType.
  rewrite Hc, Hs, bind_ret. now rewrite replace_no_marker.
Qed.

Lemma generateType_without_marker_witness :
  generateType More.generator3
    (Sample.structured "n" "uint256[]" [Sample.elementary "b" "bool"])
  = Returned "uint256[]".
Proof.
  apply (generateType_without_marker More.generator3
           (Sample.structured "n" "uint256[]" [Sample.elementary "b" "bool"])
           [Sample.elementary "b" "bool"] "(bool)");
    reflexivity.
Defined.

(** X5. In a generator built from a table of declarations, a structured
    parameter whose signature belongs to an entry without an inferred
    identifier renders as [S_k] followed by its array suffixes, [k] counting
    the unnamed entries before that entry. *)
Theorem generateType_synthetic
    (defaults : Defaults) (options : Options) (ds : Declarations)
    (i : nat) (signature : string) (d : Declaration)
    (p : AbiParameter) (components : list AbiParameter) (suffix : string) :
  NoDup (Obj.keys ds) ->
  nth_error ds i = Some (signature, d) ->
  Js.truthy (d_identifier d) = false ->
  p_components p = Some components ->
  Codec.abiTupleSignature components = Returned signature ->
  p_type p = "tuple" ++ suffix ->
  generateType (new_SolidityGenerator defaults options ds) p
  = Returned ("S_" ++ Js.number_toString (unnamed_before ds i) ++ suffix).
Proof.
  intros Hnd Hi Hd Hc Hs Ht.
  assert (Hg : Obj.get signature
                 (identifiers (new_SolidityGenerator defaults options ds))
               = Some (synthetic (unnamed_before ds i))).
  { rewrite (identifiers_assigned_eq defaults options ds Hnd).
    apply (get_nth _ i); [now rewrite assigned_keys|].
    rewrite (assigned_nth ds 0 i signature d Hi). unfold unnamed.
    now rewrite Hd. }
  unfold generateType.
  rewrite Hc, Hs, bind_ret, Hg, Ht, replace_marker.
  cbn [Js.toString]. rewrite substitution_plain by apply synthetic_plain.
  unfold synthetic. now rewrite append_assoc.
Qed.

Lemma generateType_synthetic_witness :
  generateType More.generator3 More.flags_parameter = Returned "S_1[2][]"
  /\ unnamed_before Sample.three_declarations 2 = 1.
Proof.
  split; [|reflexivity].
  apply (generateType_synthetic Sample.defaults Sample.without_prettier
           Sample.three_declarations 2 "(bool)"
           (mkDeclaration None [mkComponent "b" "bool" None])
           More.flags_parameter [Sample.elementary "b" "bool"] "[2][]").
  - repeat constructor; simpl; intuition discriminate.
  - reflexivity.
  - reflexivity.
  - reflexivity.
  - reflexivity.
  - reflexivity.
Defined.

(** X6. An inferred identifier is not copied literally into the type: where
    it holds two dollar signs in a row, with none before and none after, the
    rendered type holds one. *)
Theorem generateType_dollar
    (g : SolidityGenerator) (p : AbiParameter)
    (components : list AbiParameter) (signature before after suffix : string) :
  p_components p = Some components ->
  Codec.abiTupleSignature components = Returned signature ->
  Obj.get signature (identifiers g) = Some (before ++ "$$" ++ after) ->
  Js.includes before "$" = false ->
  Js.includes after "$" = false ->
  p_type p = "tuple" ++ suffix ->
  generateType g p = Returned (before ++ "$" ++ after ++ suffix).
Proof.
  intros Hc Hs Hg Hb Ha Ht. unfold generateType.
  rewrite Hc, Hs, bind_ret, Hg, Ht, replace_marker.
  cbn [Js.toString]. rewrite substitution_app_plain by exact Hb.
  cbn [append Js.substitution]. rewrite substitution_plain by exact Ha.
  now rewrite !append_assoc.
Qed.

Lemma generateType_dollar_witness :
  Obj.get "(bool)"
    (identifiers (new_SolidityGenerator Sample.defaults
                    Sample.without_prettier More.dollar_declarations))
  = Some "My$$Flags"
  /\ generateType
       (new_SolidityGenerator Sample.defaults Sample.without_prettier
          More.dollar_declarations)
       More.flags_parameter
     = Returned "My$Flags[2][]".
Proof.
  split; [reflexivity|].
  apply (generateType_dollar
           (new_SolidityGenerator Sample.defaults Sample.without_prettier
              More.dollar_declarations)
           More.flags_parameter [Sample.elementary "b" "bool"] "(bool)"
           "My" "Flags" "[2][]");
    reflexivity.
Defined.

(** ** The declarations block *)

(** X7. A field of a declaration that refers to a structured type is written
    with the very type text that a parameter of the same type and signature
    renders with, followed by the field's name and a semicolon; the fields
    come one per component, in the order of the components. *)
Theorem field_type_matches_parameter
    (g : SolidityGenerator) (d : Declaration) (i : nat) (c : Component)
    (signature : string) (p : AbiParameter) (components : list AbiParameter) :
  nth_error (d_components d) i = Some c ->
  cp_signature c = Some signature ->
  signature <> EmptyString ->
  p_type p = cp_type c ->
  p_components p = Some components ->
  Codec.abiTupleSignature components = Returned signature ->
  exists type fields,
    generateType g p = Returned type
    /\ generateComponents g d = Js.join newline fields
    /\ List.length fields = List.length (d_components d)
    /\ nth_error fields i = Some (type ++ " " ++ cp_name c ++ ";").
Proof.
  intros Hi Hsig Hne Ht Hc Hs.
  exists (Js.replace (cp_type c) "tuple"
            (Js.toString (Obj.get signature (identifiers g)))).
  eexists. split; [|split; [reflexivity|split]].
  - unfold generateType. now rewrite Hc, Hs, bind_ret, Ht.
  - apply length_map.
  - rewrite (map_nth_error _ _ _ Hi). rewrite Hsig.
    destruct signature as [|a s]; [congruence|]. reflexivity.
Qed.

Lemma field_type_matches_parameter_witness :
  exists type fields,
    generateType More.generator3
      (Sample.structured "inner" "tuple[]" [Sample.elementary "b" "bool"])
    = Returned type
    /\ generateComponents More.generator3
         (mkDeclaration None
            [ mkComponent "x" "uint256" None;
              mkComponent "inner" "tuple[]" (Some "(bool)") ])
       = Js.join newline fields
    /\ List.length fields = 2
    /\ nth_error fields 1 = Some (type ++ " " ++ "inner" ++ ";").
Proof.
  apply (field_type_matches_parameter More.generator3
           (mkDeclaration None
              [ mkComponent "x" "uint256" None;
                mkComponent "inner" "tuple[]" (Some "(bool)") ])
           1 (mkComponent "inner" "tuple[]" (Some "(bool)")) "(bool)"
           (Sample.structured "inner" "tuple[]" [Sample.elementary "b" "bool"])
           [Sample.elementary "b" "bool"]);
    try reflexivity.
  discriminate.
Defined.

(** X8. In a generator built from a table of declarations, the declarations
    block is one [struct] per entry of the table, in the table's order and
    separated by blank lines; the struct of an entry is named by its inferred
    identifier, or by [S_k] when it has none, [k] counting the unnamed
    entries before it, and never by a missing identifier. *)
Theorem declarations_block
    (defaults : Defaults) (options : Options) (ds : Declarations) :
  NoDup (Obj.keys ds) ->
  exists blocks,
    generateDeclarations (new_SolidityGenerator defaults options ds)
    = Js.join (newline ++ newline) blocks
    /\ List.length blocks = List.length ds
    /\ forall i signature d,
         nth_error ds i = Some (signature, d) ->
         nth_error blocks i
         = Some ("struct "
                 ++ (if Js.truthy (d_identifier d)
                     then Js.toString (d_identifier d)
                     else "S_" ++ Js.number_toString (unnamed_before ds i))
                 ++ " { "
                 ++ generateComponents
                      (new_SolidityGenerator defaults options ds) d
                 ++ " }").
Proof.
  intros Hnd. eexists. split; [reflexivity|]. split.
  - cbn [declarations new_SolidityGenerator]. apply length_map.
  - intros i s d Hi. cbn [declarations new_SolidityGenerator].
    rewrite (map_nth_error _ _ _ Hi). f_equal. f_equal. f_equal.
    rewrite (identifiers_assigned_eq defaults options ds Hnd).
    rewrite (get_nth (assigned ds 0) i s
               (if unnamed d then synthetic (0 + unnamed_before ds i)
                else Js.toString (d_identifier d))).
    + unfold unnamed. now destruct (Js.truthy (d_identifier d)).
    + now rewrite assigned_keys.
    + now apply assigned_nth.
Qed.

Lemma declarations_block_witness :
  exists blocks,
    generateDeclarations More.generator3 = Js.join (newline ++ newline) blocks
    /\ nth_error blocks 1 = Some "struct Owner { address o; }"
    /\ nth_error blocks 2 = Some "struct S_1 { bool b; }".
Proof.
  assert (Hnd : NoDup (Obj.keys Sample.three_declarations))
    by (repeat constructor; simpl; intuition discriminate).
  destruct (declarations_block Sample.defaults Sample.without_prettier
              Sample.three_declarations Hnd) as (blocks & Htext & _ & Hnth).
  exists blocks. split; [exact Htext|]. split.
  - exact (Hnth 1 "(address)" _ eq_refl).
  - exact (Hnth 2 "(bool)" _ eq_refl).
Defined.

(** ** Entries *)

(** X9. An event entry that renders does so as
    [event <name>( <inputs> ) anonymous;] when its anonymous flag is set and
    as [event <name>( <inputs> ) ;] when the flag is false or absent; the
    inputs are rendered in their order with the context of events and
    separated by commas without a space. *)
Theorem event_rendering
    (g : SolidityGenerator) (e : EventEntry) (text : string) :
  visitEventEntry g e = Returned text ->
  exists inputs,
    mapM (dispatch_parameter g (Some event_context)) (e_inputs e)
    = Returned inputs
    /\ List.length inputs = List.length (e_inputs e)
    /\ text = "event " ++ e_name e ++ "(" ++ " " ++ Js.join "," inputs
              ++ " " ++ ")" ++ " "
              ++ (if Js.truthy_flag (e_anonymous e) then "anonymous;" else ";")
    /\ (e_anonymous e = Some false \/ e_anonymous e = None ->
        text = "event " ++ e_name e ++ "(" ++ " " ++ Js.join "," inputs
               ++ " " ++ ")" ++ " " ++ ";").
Proof.
  unfold visitEventEntry. intros H.
  apply bind_returned in H as (inputs & Hin & H).
  exists inputs. split; [exact Hin|].
  split; [eapply mapM_length; eauto|].
  assert (E : text = "event " ++ e_name e ++ "(" ++ " " ++ Js.join "," inputs
                     ++ " " ++ ")" ++ " "
                     ++ (if Js.truthy_flag (e_anonymous e)
                         then "anonymous;" else ";")).
  { injection H as <-. unfold Js.array_toString. cbn [Js.join].
    rewrite !append_assoc.
    now destruct (Js.truthy_flag (e_anonymous e)). }
  split; [exact E|].
  intros [Ha|Ha]; rewrite E, Ha; reflexivity.
Qed.

Lemma event_rendering_witness :
  visitEventEntry Sample.generator More.anonymous_event
  = Returned "event Moved( address indexed from,uint256 amount ) anonymous;"
  /\ exists inputs,
      mapM (dispatch_parameter Sample.generator (Some event_context))
        (e_inputs More.anonymous_event) = Returned inputs
      /\ List.length inputs = List.length (e_inputs More.anonymous_event).
Proof.
  split; [reflexivity|].
  destruct (event_rendering Sample.generator More.anonymous_event
              "event Moved( address indexed from,uint256 amount ) anonymous;"
              eq_refl) as (inputs & Hin & Hlen & _).
  exists inputs. split; assumption.
Defined.

(** X10. The text of a function entry ends in a returns clause exactly when
    the entry has at least one output: with outputs absent or empty the slot
    of the clause stays empty, and otherwise the clause is [returns (] and
    [)] around the rendered outputs, in their order, separated by a comma
    and a space. *)
Theorem function_returns_clause
    (g : SolidityGenerator) (e : FunctionEntry) (text : string) :
  visitFunctionEntry g e = Returned text ->
  exists before returns,
    text = before ++ " " ++ returns ++ " " ++ ";"
    /\ before = "function " ++ f_name e ++ "(" ++ " "
                ++ Js.array_toString
                     (match mapM (dispatch_parameter g (Some function_context))
                              (f_inputs e) with
                      | Returned inputs => inputs
                      | Thrown _ => []
                      end)
                ++ " " ++ ") external" ++ " "
                ++ generateStateMutability (Function e)
    /\ match f_outputs e with
       | Some (o :: os) =>
           exists outputs,
             mapM (dispatch_parameter g (Some function_context)) (o :: os)
             = Returned outputs
             /\ List.length outputs = S (List.length os)
             /\ returns = "returns (" ++ Js.join ", " outputs ++ ")"
       | Some [] | None => returns = EmptyString
       end.
Proof.
  unfold visitFunctionEntry. intros H.
  apply bind_returned in H as (inputs & Hin & H).
  apply bind_returned in H as (returns & Hret & H).
  rewrite Hin. eexists. exists returns.
  split; [|split; [reflexivity|]].
  - injection H as <-. cbn [Js.join]. now rewrite !append_assoc.
  - destruct (f_outputs e) as [[|o os]|].
    + now injection Hret as <-.
    + apply bind_returned in Hret as (outputs & Hout & Hret).
      exists outputs. split; [exact Hout|]. split.
      * apply (mapM_length _ _ _ Hout).
      * injection Hret as <-. cbn [Js.join]. reflexivity.
    + now injection Hret as <-.
Qed.

Lemma function_returns_clause_witness :
  visitFunctionEntry Sample.generator More.two_outputs
  = Returned "function pair(  ) external pure returns (uint256 a, bool b) ;"
  /\ exists before returns,
      "function pair(  ) external pure returns (uint256 a, bool b) ;"
      = before ++ " " ++ returns ++ " " ++ ";".
Proof.
  split; [reflexivity|].
  destruct (function_returns_clause Sample.generator More.two_outputs
              "function pair(  ) external pure returns (uint256 a, bool b) ;"
              eq_refl) as (before & returns & Htext & _).
  exists before, returns. exact Htext.
Defined.

(** X11. A fallback entry renders for every generator, with the keyword
    [payable] exactly when its mutability is [payable]; a receive entry
    renders as [receive () external payable;] whatever mutability it
    declares. *)
Theorem fallback_and_receive (g : SolidityGenerator) :
  (forall e,
     dispatch_entry g (Fallback e)
     = Returned (if match fb_stateMutability e with
                    | Some m => String.eqb m "payable"
                    | None => false
                    end
                 then "fallback () external payable;"
                 else "fallback () external ;"))
  /\ (forall e,
        dispatch_entry g (Fallback e) = Returned "fallback () external payable;"
        <-> fb_stateMutability e = Some "payable")
  /\ (forall e,
        dispatch_entry g (Receive e) = Returned "receive () external payable;").
Proof.
  assert (F : forall e,
             dispatch_entry g (Fallback e)
             = Returned (if match fb_stateMutability e with
                            | Some m => String.eqb m "payable"
                            | None => false
                            end
                         then "fallback () external payable;"
                         else "fallback () external ;")).
  { intros [[m|]]; cbn [dispatch_entry]; unfold visitFallbackEntry;
      cbn [fb_stateMutability]; [|reflexivity].
    now destruct (String.eqb m "payable"). }
  split; [exact F|]. split; [|reflexivity].
  intros [[m|]]; rewrite F; cbn [fb_stateMutability].
  - destruct (String.eqb_spec m "payable") as [->|Hm].
    + split; reflexivity.
    + split; [discriminate | intros H; congruence].
  - split; discriminate.
Qed.

(** ** The footer *)

Lemma strip_prefix_app (p s : string) : Js.strip_prefix p (p ++ s) = Some s.
Proof.
  induction p as [|c p IH]; [reflexivity|].
  cbn [append Js.strip_prefix]. now rewrite Ascii.eqb_refl.
Qed.

Lemma strip_prefix_some (p s r : string) :
  Js.strip_prefix p s = Some r -> s = p ++ r.
Proof.
  revert s; induction p as [|c p IH]; intros s H.
  - now inversion H.
  - destruct s as [|x s]; [discriminate H|]. cbn [Js.strip_prefix] in H.
    destruct (Ascii.eqb_spec c x) as [->|]; [|discriminate H].
    cbn [append]. now rewrite (IH s H).
Qed.

Lemma split_first_some (pat s pre post : string) :
  Js.split_first pat s = Some (pre, post) -> s = pre ++ pat ++ post.
Proof.
  revert pre; induction s as [|c s IH]; intros pre H.
  - cbn [Js.split_first] in H.
    destruct (Js.strip_prefix pat EmptyString) as [r|] eqn:E; [|discriminate H].
    inversion H; subst. now apply strip_prefix_some in E.
  - cbn [Js.split_first] in H.
    destruct (Js.strip_prefix pat (String c s)) as [r|] eqn:E.
    + inversion H; subst. now apply strip_prefix_some in E.
    + destruct (Js.split_first pat s) as [[pre' post']|]; [|discriminate H].
      inversion H; subst. cbn [append]. now rewrite (IH pre' eq_refl).
Qed.

Lemma includes_contains (s pat : string) :
  Js.includes s pat = true <-> contains s pat.
Proof.
  unfold Js.includes, contains. split.
  - destruct (Js.split_first pat s) as [[pre post]|] eqn:E; [|discriminate].
    intros _. exists pre, post. now apply split_first_some.
  - intros (a & b & ->). induction a as [|c a IH].
    + cbn [append].
      destruct (pat ++ b) as [|x r] eqn:E; cbn [Js.split_first];
        rewrite <- E, strip_prefix_app; reflexivity.
    + cbn [append Js.split_first].
      destruct (Js.strip_prefix pat (String c (a ++ pat ++ b))); [reflexivity|].
      destruct (Js.split_first pat (a ++ pat ++ b)) as [[? ?]|];
        [reflexivity | discriminate IH].
Qed.

Lemma contains_refl (s : string) : contains s s.
Proof. exists EmptyString, EmptyString. now rewrite append_nil_r. Qed.

Lemma contains_trans (s t u : string) :
  contains s t -> contains t u -> contains s u.
Proof.
  intros (a & b & ->) (c & d & ->). exists (a ++ c), (d ++ b).
  now rewrite !append_assoc.
Qed.

Lemma contains_app (a s b t : string) :
  contains s t -> contains (a ++ s ++ b) t.
Proof.
  intros H. eapply contains_trans; [|exact H]. now exists a, b.
Qed.

Lemma contains_join (sep : string) (l : list string) (x : string) :
  In x l -> contains (Js.join sep l) x.
Proof.
  induction l as [|y l IH]; [contradiction|]. intros [->|H].
  - destruct l as [|z l]; [apply contains_refl|].
    rewrite join_cons. exists EmptyString, (sep ++ Js.join sep (z :: l)).
    reflexivity.
  - destruct l as [|z l]; [contradiction|]. rewrite join_cons.
    destruct (IH H) as (a & b & E). exists (y ++ sep ++ a), b.
    rewrite E. now rewrite !append_assoc.
Qed.

Lemma quote_chars_app (a b : string) :
  JSON.quote_chars (a ++ b) = JSON.quote_chars a ++ JSON.quote_chars b.
Proof.
  induction a as [|c a IH]; [reflexivity|].
  cbn [append JSON.quote_chars]. now rewrite IH, append_assoc.
Qed.

(** The terminator of a comment is written to JSON as it is. *)
Lemma quote_keeps_terminator (s : string) :
  contains s "*/" -> contains (JSON.quote s) "*/".
Proof.
  intros (a & b & ->). unfold JSON.quote.
  rewrite !quote_chars_app.
  exists (String JSON.dquote (JSON.quote_chars a)),
         (JSON.quote_chars b ++ String JSON.dquote EmptyString).
  cbn [append]. now rewrite !append_assoc.
Qed.

Lemma stringify_member (ms : list (string * JSON.value)) (k : string)
    (v : JSON.value) :
  In (k, v) ms ->
  contains (JSON.stringify (JSON.Object ms)) (JSON.stringify v).
Proof.
  intros H. cbn [JSON.stringify]. apply contains_app.
  eapply contains_trans.
  - apply contains_join.
    apply (in_map (fun m => JSON.quote (fst m) ++ ":" ++ JSON.stringify (snd m)))
      in H. exact H.
  - cbn [fst snd]. exists (JSON.quote k ++ ":"), EmptyString.
    now rewrite append_nil_r, append_assoc.
Qed.

Lemma stringify_element (l : list JSON.value) (v : JSON.value) :
  In v l -> contains (JSON.stringify (JSON.Arr l)) (JSON.stringify v).
Proof.
  intros H. cbn [JSON.stringify]. apply contains_app.
  apply contains_join. now apply in_map.
Qed.

Lemma footer_lines_of (abi : Abi) :
  lines (generateAutogeneratedNotice abi)
  = [ EmptyString;
      "// THIS FILE WAS AUTOGENERATED FROM THE FOLLOWING ABI JSON:";
      "/*";
      JSON.stringify (abi_value abi);
      "*/" ]
  /\ no_line_feed (JSON.stringify (abi_value abi)) = true.
Proof.
  assert (N : no_line_feed (JSON.stringify (abi_value abi)) = true)
    by (unfold no_line_feed; now rewrite stringify_one_line).
  split; [|exact N].
  rewrite notice_text.
  match goal with
  | |- lines (newline ++ ?r) = _ =>
      change (newline ++ r) with (EmptyString ++ newline ++ r)
  end.
  rewrite (lines_newline EmptyString).
  rewrite (lines_newline
             "// THIS FILE WAS AUTOGENERATED FROM THE FOLLOWING ABI JSON:").
  rewrite (lines_newline "/*"), lines_newline.
  now rewrite (lines_single (JSON.stringify (abi_value abi)) N).
Qed.

(** X12. Whatever the ABI holds, a line feed in a name included, its footer
    is five lines: an empty one, the announcement, the opening of the
    comment, the JSON of the ABI on one line, and the closing of the
    comment; they are the last lines of every generated text. *)
Theorem footer_lines (g : SolidityGenerator) (abi : Abi) :
  lines (generateAutogeneratedNotice abi)
  = [ EmptyString;
      "// THIS FILE WAS AUTOGENERATED FROM THE FOLLOWING ABI JSON:";
      "/*";
      JSON.stringify (abi_value abi);
      "*/" ]
  /\ forall text,
       visitAbi g abi = Returned text ->
       exists before,
         lines text
         = (before
            ++ [ EmptyString;
                 "// THIS FILE WAS AUTOGENERATED FROM THE FOLLOWING ABI JSON:";
                 "/*";
                 JSON.stringify (abi_value abi);
                 "*/" ])%list.
Proof.
  pose proof (proj1 (footer_lines_of abi)) as L.
  split; [exact L|].
  intros text H. rewrite visitAbi_text in H.
  apply bind_returned in H as (interface & _ & H).
  exists (lines (generateHeader g ++ newline ++ newline
                 ++ generateDeclarations g ++ newline ++ newline
                 ++ interface ++ newline)).
  assert (E0 : text = generateHeader g ++ newline ++ newline
                      ++ generateDeclarations g ++ newline ++ newline
                      ++ interface ++ newline ++ newline
                      ++ generateAutogeneratedNotice abi) by congruence.
  assert (E : text = (generateHeader g ++ newline ++ newline
                      ++ generateDeclarations g ++ newline ++ newline
                      ++ interface ++ newline)
                     ++ newline ++ generateAutogeneratedNotice abi).
  { rewrite E0, !append_assoc. reflexivity. }
  now rewrite E, lines_newline, L.
Qed.

(** X13. The terminator of a comment is not escaped: when the name of a
    function or of an event of the ABI holds it, so does the line of JSON
    embedded in the comment of the footer. *)
Theorem footer_keeps_comment_terminator
    (g : SolidityGenerator) (abi : Abi) (e : Entry) (name text : string) :
  In e abi ->
  (exists f, e = Function f /\ f_name f = name)
  \/ (exists ev, e = Event ev /\ e_name ev = name) ->
  Js.includes name "*/" = true ->
  visitAbi g abi = Returned text ->
  exists json,
    embedded_json text = Some json
    /\ json = JSON.stringify (abi_value abi)
    /\ Js.includes json "*/" = true.
Proof.
  intros He Hname Hinc Hv.
  exists (JSON.stringify (abi_value abi)). split; [|split; [reflexivity|]].
  - destruct (visitAbi_footer g abi text Hv) as (before & ->).
    rewrite <- (append_assoc before newline), <- (append_assoc _ "/*").
    apply embedded_json_footer. unfold no_line_feed.
    now rewrite stringify_one_line.
  - apply includes_contains. apply includes_contains in Hinc.
    eapply contains_trans.
    { apply (stringify_element (map entry_value abi) (entry_value e)).
      now apply in_map. }
    assert (Hm : exists ms, entry_value e = JSON.Object ms
                            /\ In ("name", JSON.Str name) ms).
    { destruct Hname as [(f & -> & <-)|(ev & -> & <-)]; cbn [entry_value];
        eexists; (split; [reflexivity|]).
      - right. now left.
      - apply in_or_app. right. right. now left. }
    destruct Hm as (ms & -> & Hin).
    eapply contains_trans; [apply (stringify_member ms _ _ Hin)|].
    cbn [JSON.stringify]. now apply quote_keeps_terminator.
Qed.

Lemma footer_keeps_comment_terminator_witness :
  exists json,
    embedded_json
      (Sample.generated_text
         (generateSolidity Sample.defaults (fun _ => []) Sample.failing_format
            [Function (mkFunctionEntry "f*/ contract X {} /*" [] None None)]
            Sample.without_prettier))
    = Some json
    /\ json = JSON.stringify
                (abi_value
                   [Function
                      (mkFunctionEntry "f*/ contract X {} /*" [] None None)])
    /\ Js.includes json "*/" = true.
Proof.
  apply (footer_keeps_comment_terminator
           (new_SolidityGenerator Sample.defaults Sample.without_prettier [])
           [Function (mkFunctionEntry "f*/ contract X {} /*" [] None None)]
           (Function (mkFunctionEntry "f*/ contract X {} /*" [] None None))
           "f*/ contract X {} /*").
  - now left.
  - left. eexists. split; reflexivity.
  - reflexivity.
  - vm_compute. reflexivity.
Defined.

(** X20. The footer tells ABIs apart: two ABIs with the same footer are the
    same ABI. *)
Theorem footer_determines_abi (abi abi' : Abi) :
  generateAutogeneratedNotice abi = generateAutogeneratedNotice abi' ->
  abi = abi'.
Proof.
  intros H.
  assert (L : lines (generateAutogeneratedNotice abi)
              = lines (generateAutogeneratedNotice abi')) by now rewrite H.
  rewrite (proj1 (footer_lines_of abi)), (proj1 (footer_lines_of abi')) in L.
  assert (J : JSON.stringify (abi_value abi) = JSON.stringify (abi_value abi'))
    by congruence.
  apply abi_value_inj.
  assert (P : JSON.parse (JSON.stringify (abi_value abi))
              = JSON.parse (JSON.stringify (abi_value abi')))
    by now rewrite J.
  rewrite !JSONFacts.parse_stringify in P. congruence.
Qed.

Lemma footer_determines_abi_witness :
  [Receive (mkReceiveEntry None)] = [Receive (mkReceiveEntry None)].
Proof.
  apply (footer_determines_abi [Receive (mkReceiveEntry None)]
           [Receive (mkReceiveEntry None)]).
  reflexivity.
Defined.

(** * The command line *)

(** ** Commas in a text that parses *)

Module CommaFacts.
Import JSON.

Lemma occurrences_app (c : ascii) (a b : string) :
  occurrences c (a ++ b) = occurrences c a + occurrences c b.
Proof.
  induction a as [|x a IH]; [reflexivity|].
  cbn [append occurrences]. rewrite IH. cbv match in *; lia.
Qed.

Lemma is_ws_not_comma (c : ascii) : is_ws c = true -> Ascii.eqb c "," = false.
Proof.
  unfold is_ws. intros H.
  repeat (apply orb_true_iff in H as [H|H]);
    apply Ascii.eqb_eq in H; subst; reflexivity.
Qed.

Lemma commas_skip_ws (s : string) : commas (skip_ws s) = commas s.
Proof.
  induction s as [|c s IH]; [reflexivity|].
  cbn [skip_ws]. destruct (is_ws c) eqn:E; [|reflexivity].
  cbn [occurrences]. now rewrite IH, (is_ws_not_comma c E).
Qed.

Lemma commas_expect (c : ascii) (s rest : string) :
  Ascii.eqb c "," = false -> expect c s = Some rest -> commas s = commas rest.
Proof.
  intros Hc. destruct s as [|x s]; [discriminate|]. cbn [expect].
  destruct (Ascii.eqb_spec x c) as [->|]; [|discriminate].
  intros H. inversion H; subst. cbn [occurrences]. now rewrite Hc.
Qed.

Lemma commas_strip_prefix (p s rest : string) :
  Js.strip_prefix p s = Some rest -> commas s = commas p + commas rest.
Proof.
  intros H. apply strip_prefix_some in H. subst.
  apply occurrences_app.
Qed.

Lemma quote_char_plain (c : ascii) :
  Ascii.eqb c dquote = false -> Ascii.eqb c backslash = false ->
  Nat.ltb (nat_of_ascii c) 32 = false -> quote_char c = String c EmptyString.
Proof.
  destruct c as [[] [] [] [] [] [] [] []]; intros H1 H2 H3;
    try reflexivity; discriminate.
Qed.

Lemma cons_char_some (c : ascii) (r : option (string * string))
    (str rest : string) :
  cons_char c r = Some (str, rest) ->
  exists str', r = Some (str', rest) /\ str = String c str'.
Proof.
  destruct r as [[s' r']|]; [|discriminate]. cbn [cons_char].
  intros H. inversion H; subst. eauto.
Qed.

Lemma hex_value_comma : hex_value "," = None.
Proof. reflexivity. Qed.

Lemma unicode_escape_no_comma (a b x y : ascii) (ch : ascii) :
  unicode_escape a b x y = Some ch ->
  Ascii.eqb a "," = false /\ Ascii.eqb b "," = false
  /\ Ascii.eqb x "," = false /\ Ascii.eqb y "," = false.
Proof.
  unfold unicode_escape. intros H.
  destruct (hex_value a) as [va|] eqn:Ea; [|discriminate].
  destruct (hex_value b) as [vb|] eqn:Eb; [|discriminate].
  destruct (hex_value x) as [vx|] eqn:Ex; [|discriminate].
  destruct (hex_value y) as [vy|] eqn:Ey; [|discriminate].
  repeat split;
    match goal with
    | |- Ascii.eqb ?c _ = false =>
        destruct (Ascii.eqb_spec c ",") as [->|]; [|reflexivity];
        rewrite hex_value_comma in *; discriminate
    end.
Qed.

Lemma simple_escape_no_comma (e ch : ascii) :
  simple_escape e = Some ch -> Ascii.eqb e "," = false.
Proof.
  intros H. destruct (Ascii.eqb_spec e ",") as [->|]; [|reflexivity].
  discriminate H.
Qed.

(** A string literal holds no more commas than the string it stands for. *)
Lemma commas_parse_chars (n : nat) :
  forall s str rest,
    String.length s <= n ->
    parse_chars s = Some (str, rest) ->
    commas s <= commas (quote_chars str) + commas rest.
Proof.
  induction n as [|n IH]; intros s str rest Hn H.
  - destruct s; [discriminate H | simpl in Hn; lia].
  - destruct s as [|c s']; [discriminate H|].
    cbn [String.length] in Hn. cbn [parse_chars] in H.
    destruct (Ascii.eqb c dquote) eqn:Edq.
    + inversion H; subst. apply Ascii.eqb_eq in Edq. subst c.
      cbn [occurrences quote_chars]. change (Ascii.eqb dquote ",") with false.
      cbv match in *; lia.
    + destruct (Ascii.eqb c backslash) eqn:Ebs.
      * apply Ascii.eqb_eq in Ebs. subst c.
        destruct s' as [|e s'']; [discriminate H|].
        cbn [String.length] in Hn.
        destruct (Ascii.eqb e "u") eqn:Eu.
        -- apply Ascii.eqb_eq in Eu. subst e.
           destruct s'' as [|a [|b [|x [|y s3]]]]; try discriminate H.
           cbn [String.length] in Hn.
           destruct (unicode_escape a b x y) as [ch|] eqn:Eesc;
             [|discriminate H].
           apply cons_char_some in H as (str' & Hp & ->).
           apply unicode_escape_no_comma in Eesc as (Ha & Hb & Hx & Hy).
           apply IH in Hp; [|cbv match in *; lia].
           cbn [occurrences quote_chars]. rewrite occurrences_app.
           rewrite Ha, Hb, Hx, Hy.
           change (Ascii.eqb backslash ",") with false.
           change (Ascii.eqb "u" ",") with false. cbv match in *; lia.
        -- destruct (simple_escape e) as [ch|] eqn:Eesc; [|discriminate H].
           apply cons_char_some in H as (str' & Hp & ->).
           apply simple_escape_no_comma in Eesc.
           apply IH in Hp; [|cbv match in *; lia].
           cbn [occurrences quote_chars]. rewrite occurrences_app, Eesc.
           change (Ascii.eqb backslash ",") with false. cbv match in *; lia.
      * destruct (Nat.ltb (nat_of_ascii c) 32) eqn:Elt; [discriminate H|].
        apply cons_char_some in H as (str' & Hp & ->).
        apply IH in Hp; [|cbv match in *; lia].
        cbn [occurrences quote_chars].
        rewrite (quote_char_plain c Edq Ebs Elt). cbn [append occurrences].
        cbv match in *; lia.
Qed.

Lemma commas_quote (s : string) : commas (quote s) = commas (quote_chars s).
Proof.
  unfold quote. cbn [occurrences]. rewrite occurrences_app.
  cbn [occurrences]. change (Ascii.eqb dquote ",") with false. cbv match in *; lia.
Qed.

Lemma commas_elements_cons (v : value) (l : list value) :
  l <> [] ->
  commas (elements_text (v :: l))
  = commas (stringify v) + 1 + commas (elements_text l).
Proof.
  intros H. unfold elements_text. cbn [map].
  destruct l as [|y l]; [congruence|]. cbn [map].
  rewrite join_cons, !occurrences_app.
  change (occurrences "," ",") with 1. lia.
Qed.

Lemma commas_members_cons (m : string * value) (ms : list (string * value)) :
  ms <> [] ->
  commas (members_text (m :: ms))
  = commas (member_text m) + 1 + commas (members_text ms).
Proof.
  intros H. unfold members_text. cbn [map].
  destruct ms as [|y ms]; [congruence|]. cbn [map].
  rewrite join_cons, !occurrences_app.
  change (occurrences "," ",") with 1. lia.
Qed.

Lemma commas_member (k : string) (v : value) :
  commas (member_text (k, v)) = commas (quote_chars k) + commas (stringify v).
Proof.
  unfold member_text. cbn [fst snd].
  rewrite !occurrences_app, commas_quote. reflexivity.
Qed.

Lemma parsers_bounded (fuel : nat) : bounded fuel.
Proof.
  induction fuel as [|fuel (IHv & IHe & IHm)].
  - repeat split; intros; discriminate.
  - split; [|split].
    + intros s v rest H. cbn [parse_value] in H.
      rewrite <- (commas_skip_ws s).
      destruct (skip_ws s) as [|c r]; [discriminate H|].
      destruct (Ascii.eqb c dquote) eqn:Edq.
      { apply Ascii.eqb_eq in Edq. subst c.
        destruct (parse_chars r) as [[str rest']|] eqn:Ep; [|discriminate H].
        inversion H; subst.
        apply (commas_parse_chars _ _ _ _ (le_n _)) in Ep.
        cbn [stringify]. rewrite commas_quote. cbn [occurrences].
        change (Ascii.eqb dquote ",") with false. cbv match in *; lia. }
      destruct (Ascii.eqb c "[") eqn:Eb.
      { apply Ascii.eqb_eq in Eb. subst c. cbn [occurrences].
        change (Ascii.eqb "[" ",") with false.
        destruct (expect "]" (skip_ws r)) as [rest'|] eqn:Ex.
        - inversion H; subst.
          apply (commas_expect "]" _ _ eq_refl) in Ex.
          rewrite commas_skip_ws in Ex. cbn. cbv match in *; lia.
        - destruct (parse_elements fuel r) as [[l rest']|] eqn:Ep;
            [|discriminate H].
          inversion H; subst. apply IHe in Ep as (_ & Ep).
          cbn [stringify]. fold (elements_text l).
          rewrite !occurrences_app. cbn [occurrences]. cbv match in *; lia. }
      destruct (Ascii.eqb c "{") eqn:Eo.
      { apply Ascii.eqb_eq in Eo. subst c. cbn [occurrences].
        change (Ascii.eqb "{" ",") with false.
        destruct (expect "}" (skip_ws r)) as [rest'|] eqn:Ex.
        - inversion H; subst.
          apply (commas_expect "}" _ _ eq_refl) in Ex.
          rewrite commas_skip_ws in Ex. cbn. cbv match in *; lia.
        - destruct (parse_members fuel r) as [[ms rest']|] eqn:Ep;
            [|discriminate H].
          inversion H; subst. apply IHm in Ep as (_ & Ep).
          cbn [stringify]. fold member_text. fold (members_text ms).
          rewrite !occurrences_app. cbn [occurrences]. cbv match in *; lia. }
      destruct (Js.strip_prefix "null" (String c r)) as [rest'|] eqn:E1.
      { inversion H; subst. apply commas_strip_prefix in E1.
        rewrite E1. cbn. cbv match in *; lia. }
      destruct (Js.strip_prefix "true" (String c r)) as [rest'|] eqn:E2.
      { inversion H; subst. apply commas_strip_prefix in E2.
        rewrite E2. cbn. cbv match in *; lia. }
      destruct (Js.strip_prefix "false" (String c r)) as [rest'|] eqn:E3;
        [|discriminate H].
      inversion H; subst. apply commas_strip_prefix in E3.
      rewrite E3. cbn. cbv match in *; lia.
    + intros s l rest H. cbn [parse_elements] in H.
      destruct (parse_value fuel s) as [[v rest1]|] eqn:Ev; [|discriminate H].
      apply IHv in Ev. rewrite <- (commas_skip_ws rest1) in Ev.
      destruct (skip_ws rest1) as [|c rest2]; [discriminate H|].
      destruct (Ascii.eqb c ",") eqn:Ec.
      * destruct (parse_elements fuel rest2) as [[l' rest']|] eqn:Ep;
          [|discriminate H].
        inversion H; subst. apply IHe in Ep as (Hne & Ep).
        split; [discriminate|].
        rewrite (commas_elements_cons v l' Hne).
        cbn [occurrences] in Ev. rewrite Ec in Ev. cbv match in *; lia.
      * destruct (Ascii.eqb c "]") eqn:Eb; [|discriminate H].
        inversion H; subst. split; [discriminate|].
        unfold elements_text. cbn [map Js.join].
        cbn [occurrences] in Ev. rewrite Ec in Ev. cbv match in *; lia.
    + intros s ms rest H. cbn [parse_members] in H.
      destruct (expect dquote (skip_ws s)) as [r|] eqn:Eq; [|discriminate H].
      apply (commas_expect dquote _ _ eq_refl) in Eq.
      rewrite commas_skip_ws in Eq.
      destruct (parse_chars r) as [[key rest1]|] eqn:Ek; [|discriminate H].
      apply (commas_parse_chars _ _ _ _ (le_n _)) in Ek.
      destruct (expect ":" (skip_ws rest1)) as [rest2|] eqn:Ecol;
        [|discriminate H].
      apply (commas_expect ":" _ _ eq_refl) in Ecol.
      rewrite commas_skip_ws in Ecol.
      destruct (parse_value fuel rest2) as [[v rest3]|] eqn:Ev;
        [|discriminate H].
      apply IHv in Ev. rewrite <- (commas_skip_ws rest3) in Ev.
      destruct (skip_ws rest3) as [|c rest4]; [discriminate H|].
      destruct (Ascii.eqb c ",") eqn:Ec.
      * destruct (parse_members fuel rest4) as [[ms' rest']|] eqn:Ep;
          [|discriminate H].
        inversion H; subst. apply IHm in Ep as (Hne & Ep).
        split; [discriminate|].
        rewrite (commas_members_cons (key, v) ms' Hne), commas_member.
        cbn [occurrences] in Ev. rewrite Ec in Ev. cbv match in *; lia.
      * destruct (Ascii.eqb c "}") eqn:Eb; [|discriminate H].
        inversion H; subst. split; [discriminate|].
        unfold members_text. cbn [map Js.join]. rewrite commas_member.
        cbn [occurrences] in Ev. rewrite Ec in Ev. cbv match in *; lia.
Qed.

(** A text that parses to a value holds no more commas than the text that
    [JSON.stringify] writes for that value. *)
Lemma commas_parse (text : string) (v : value) :
  parse text = Some v -> commas text <= commas (stringify v).
Proof.
  unfold parse. intros H.
  destruct (parse_value (S (String.length text)) text) as [[v' rest]|] eqn:E;
    [|discriminate H].
  apply (proj1 (parsers_bounded _)) in E.
  destruct (skip_ws rest) eqn:Er; [|discriminate H].
  inversion H; subst.
  rewrite <- (commas_skip_ws rest), Er in E. cbn [occurrences] in E. cbv match in *; lia.
Qed.

Lemma commas_join (chunks : list string) :
  chunks <> [] ->
  commas (Js.join "," chunks)
  = commas (String.concat EmptyString chunks) + (List.length chunks - 1).
Proof.
  induction chunks as [|x l IH]; [congruence|]. intros _.
  destruct l as [|y l]; [cbn; lia|].
  rewrite join_cons.
  change (String.concat EmptyString (x :: y :: l))
    with (x ++ EmptyString ++ String.concat EmptyString (y :: l)).
  rewrite !occurrences_app, IH by discriminate.
  change (occurrences "," ",") with 1.
  change (occurrences "," EmptyString) with 0.
  cbn [List.length]. lia.
Qed.

End CommaFacts.

(** ** Reading the ABI from stdin *)

(** X14. When stdin delivers, in one chunk, the text that [JSON.stringify]
    writes for a value, [readStdin] resolves to that value; when stdin
    delivers nothing at all, it rejects. *)
Theorem readStdin_one_chunk :
  (forall v, Cli.readStdin [JSON.stringify v] = Some v)
  /\ (forall abi,
        Cli.readStdin [JSON.stringify (abi_value abi)] = Some (abi_value abi))
  /\ Cli.readStdin [] = None.
Proof.
  split; [|split].
  - intros v. unfold Cli.readStdin. cbn [Js.join].
    apply JSONFacts.parse_stringify.
  - intros abi. unfold Cli.readStdin. cbn [Js.join].
    apply JSONFacts.parse_stringify.
  - reflexivity.
Qed.

(** X15. When stdin delivers the text that [JSON.stringify] writes for a
    value in two chunks or more, [readStdin] does not resolve to that value:
    the chunks are joined with commas, and no text with that many commas
    parses to it. *)
Theorem readStdin_several_chunks (chunks : list string) (v : JSON.value) :
  2 <= List.length chunks ->
  String.concat EmptyString chunks = JSON.stringify v ->
  Cli.readStdin chunks <> Some v.
Proof.
  intros Hlen Htext H. unfold Cli.readStdin in H.
  apply CommaFacts.commas_parse in H.
  rewrite CommaFacts.commas_join in H by (destruct chunks; [simpl in Hlen; lia | discriminate]).
  rewrite Htext in H. lia.
Qed.

Lemma readStdin_several_chunks_witness :
  Cli.readStdin ["["; "]"] <> Some (abi_value []).
Proof.
  apply (readStdin_several_chunks ["["; "]"] (abi_value [])).
  - simpl. lia.
  - reflexivity.
Defined.

(** ** What the command writes *)


(** * The code pane *)

(** X17. However often the effect has run before, after a run the pane shows
    what belongs to that run alone: nothing while a text is being generated
    or when the result has no contents, and otherwise the highlighted
    contents, or the contents as they are when the highlighter has thrown. *)
Theorem code_pane_shows_current_result
    (highlight : string -> outcome string)
    (earlier : list (bool * option string))
    (isGenerating : bool) (contents : option string) (st : Web.state) :
  Web.shown
    (fold_left (fun s run => Web.effect highlight (fst run) (snd run) s)
       (earlier ++ [(isGenerating, contents)]) st)
  = if isGenerating then None
    else
      match contents with
      | Some c =>
          Some (match highlight c with
                | Returned value => value
                | Thrown _ => c
                end)
      | None => None
      end.
Proof.
  rewrite fold_left_app. cbn [fold_left fst snd].
  generalize (fold_left
                (fun s run => Web.effect highlight (fst run) (snd run) s)
                earlier st) as before.
  intros before. unfold Web.effect, Web.shown.
  destruct isGenerating; [reflexivity|].
  destruct contents as [c|]; [|reflexivity].
  now destruct (highlight c).
Qed.

(** * Names across the generated text *)

Lemma truthy_app_dollars (before after : string) :
  Js.truthy (Some (before ++ "$$" ++ after)) = true.
Proof. destruct before; reflexivity. Qed.

(** X18. A struct is declared under its inferred identifier as it is, but
    referred to through a replacement that reads dollar signs. Take an
    inferred identifier with two dollar signs in a row (none before, none
    after): its declaration says [struct before$$after], while a parameter
    of that signature is rendered with the type [before$after]. Unless
    another entry of the table has that very name as its inferred
    identifier, no struct of the declarations block is declared under it:
    the reference names a struct that is not declared. *)
Theorem declared_name_differs_from_reference
    (defaults : Defaults) (options : Options) (ds : Declarations)
    (i : nat) (signature : string) (d : Declaration)
    (before after : string)
    (p : AbiParameter) (components : list AbiParameter) :
  NoDup (Obj.keys ds) ->
  nth_error ds i = Some (signature, d) ->
  d_identifier d = Some (before ++ "$$" ++ after) ->
  Js.includes before "$" = false ->
  Js.includes after "$" = false ->
  ~ In (before ++ "$" ++ after) (inferred ds) ->
  p_components p = Some components ->
  Codec.abiTupleSignature components = Returned signature ->
  p_type p = "tuple" ->
  (exists blocks,
     generateDeclarations (new_SolidityGenerator defaults options ds)
     = Js.join (newline ++ newline) blocks
     /\ List.length blocks = List.length ds
     /\ nth_error blocks i
        = Some ("struct " ++ (before ++ "$$" ++ after) ++ " { "
                ++ generateComponents
                     (new_SolidityGenerator defaults options ds) d
                ++ " }")
     /\ forall j signature' d',
          nth_error ds j = Some (signature', d') ->
          exists identifier,
            nth_error blocks j
            = Some ("struct " ++ identifier ++ " { "
                    ++ generateComponents
                         (new_SolidityGenerator defaults options ds) d'
                    ++ " }")
            /\ identifier <> before ++ "$" ++ after)
  /\ generateType (new_SolidityGenerator defaults options ds) p
     = Returned (before ++ "$" ++ after)
  /\ before ++ "$" ++ after <> before ++ "$$" ++ after.
Proof.
  intros Hnd Hi Hd Hb Ha Hfree Hc Hs Ht.
  assert (Hk : NoDup (Obj.keys (assigned ds 0)))
    by now rewrite assigned_keys.
  assert (Hids : identifiers (new_SolidityGenerator defaults options ds)
                 = assigned ds 0)
    by now apply identifiers_assigned_eq.
  assert (Hg : Obj.get signature
                 (identifiers (new_SolidityGenerator defaults options ds))
               = Some (before ++ "$$" ++ after)).
  { rewrite Hids. apply (get_nth _ i); [exact Hk|].
    rewrite (assigned_nth ds 0 i signature d Hi). unfold unnamed.
    now rewrite Hd, truthy_app_dollars. }
  assert (Hdollar : Js.includes (before ++ "$" ++ after) "$" = true).
  { rewrite includes_char_app. cbn [append].
    rewrite includes_char_cons, Ascii.eqb_refl. apply orb_true_r. }
  split; [|split].
  - eexists. split; [reflexivity|]. split; [|split].
    + cbn [declarations new_SolidityGenerator]. apply length_map.
    + cbn [declarations new_SolidityGenerator].
      rewrite (map_nth_error _ _ _ Hi). now rewrite Hg.
    + intros j s' d' Hj.
      pose proof (assigned_nth ds 0 j s' d' Hj) as Hn.
      pose proof (get_nth _ j s' _ Hk Hn) as Hget.
      eexists. split.
      * cbn [declarations new_SolidityGenerator].
        rewrite (map_nth_error _ _ _ Hj). rewrite Hids, Hget.
        cbn [Js.toString]. reflexivity.
      * intros E.
        assert (Hin : In (before ++ "$" ++ after)
                        (Obj.values (assigned ds 0))).
        { rewrite <- E. apply nth_error_In in Hn.
          apply (in_map snd) in Hn. exact Hn. }
        apply assigned_values in Hin as [Hin|(k & _ & Hin)].
        -- now apply Hfree.
        -- rewrite Hin, synthetic_plain in Hdollar. discriminate Hdollar.
  - unfold generateType.
    rewrite Hc, Hs, bind_ret, Hg, Ht.
    change "tuple" with ("tuple" ++ EmptyString) at 1.
    rewrite replace_marker. cbn [Js.toString].
    rewrite substitution_app_plain by exact Hb.
    cbn [append Js.substitution]. rewrite substitution_plain by exact Ha.
    now rewrite !append_nil_r.
  - intros E.
    assert (L : String.length (before ++ "$" ++ after)
                = String.length (before ++ "$$" ++ after)) by now rewrite E.
    rewrite !length_append in L. simpl in L. lia.
Qed.

Lemma declared_name_differs_from_reference_witness :
  generateDeclarations
    (new_SolidityGenerator Sample.defaults Sample.without_prettier
       More.dollar_declarations)
  = "struct My$$Flags { bool b; }"
  /\ ~ In ("My" ++ "$" ++ "Flags") (inferred More.dollar_declarations)
  /\ generateType
       (new_SolidityGenerator Sample.defaults Sample.without_prettier
          More.dollar_declarations)
       (Sample.structured "flags" "tuple" [Sample.elementary "b" "bool"])
     = Returned ("My" ++ "$" ++ "Flags").
Proof.
  assert (Hfree : ~ In ("My" ++ "$" ++ "Flags")
                    (inferred More.dollar_declarations)).
  { simpl. intros [H|[]]. discriminate H. }
  split; [reflexivity|]. split; [exact Hfree|].
  apply (declared_name_differs_from_reference Sample.defaults
           Sample.without_prettier More.dollar_declarations 0 "(bool)"
           (mkDeclaration (Some "My$$Flags") [mkComponent "b" "bool" None])
           "My" "Flags"
           (Sample.structured "flags" "tuple" [Sample.elementary "b" "bool"])
           [Sample.elementary "b" "bool"]).
  - repeat constructor; simpl; intuition discriminate.
  - reflexivity.
  - reflexivity.
  - reflexivity.
  - reflexivity.
  - exact Hfree.
  - reflexivity.
  - reflexivity.
  - reflexivity.
Defined.

(** X19. The header the command line leads to: the license is the one given
    with [-L], else the one given with [--license], else the default, and
    the version likewise with [-V] and [--solidity-version]; an option that
    is given but empty counts as not given for the short form only. *)
Theorem command_line_header
    (defaults : Defaults) (ds : Declarations) (args : Cli.Args) :
  generateHeader (new_SolidityGenerator defaults (Cli.options args) ds)
  = "// SPDX-License-Identifier: "
    ++ match Cli.value_of args "-L" with
       | Some (String c s) => String c s
       | _ =>
           match Cli.value_of args "--license" with
           | Some l => l
           | None => default_license defaults
           end
       end
    ++ newline
    ++ "// !! THIS FILE WAS AUTOGENERATED BY abi-to-sol. SEE BELOW FOR SOURCE. !!"
    ++ newline
    ++ "pragma solidity "
    ++ match Cli.value_of args "-V" with
       | Some (String c s) => String c s
       | _ =>
           match Cli.value_of args "--solidity-version" with
           | Some v => v
           | None => default_solidityVersion defaults
           end
       end
    ++ ";" ++ newline
    ++ "pragma experimental ABIEncoderV2;".
Proof.
  unfold generateHeader.
  cbn [license solidityVersion new_SolidityGenerator Cli.options o_license
       o_solidityVersion].
  unfold Cli.or_else.
  assert (E : forall a b d,
             or_default (if Js.truthy a then a else b) d
             = match a with
               | Some (String c s) => String c s
               | _ => match b with Some l => l | None => d end
               end).
  { intros [[|c s]|] b d; reflexivity. }
  rewrite !E. cbn [Js.join]. now rewrite !append_assoc.
Qed.
